(** * go-observability-lab: telemetry lifecycle and the A -> B -> C chain

    A shallow embedding of the Go sources:
    - [internal/otel] ([SetupOTelSDK]) and the older root-package
      [otel.go] ([setupOTelSDK]): telemetry pipeline builder and its
      aggregate shutdown closure;
    - [cmd/app-a], [cmd/app-b], [cmd/app-c] and the root [main.go]:
      [run], [newHTTPHandler], [handleRoot], [callAppB]/[callAppC],
      [handleHealth].

    Go closures that share captured variables are modelled by explicit
    state passing; library calls (errors.Join, net/http, encoding/json,
    the OpenTelemetry API) are modelled at their documented interface. *)

From Stdlib Require Import List String Ascii ZArith NArith Bool Arith Lia DecimalString.
Import ListNotations.
Open Scope string_scope.

Set Warnings "-register-all".

(** ** A small state monad *)

Definition M (S A : Type) : Type := S -> A * S.

Definition ret {S A} (a : A) : M S A := fun s => (a, s).

Definition bind {S A B} (m : M S A) (k : A -> M S B) : M S B :=
  fun s => let (a, s') := m s in k a s'.

Notation "x <- m ;; k" := (bind m (fun x => k))
  (at level 61, m at next level, right associativity).
Notation "m ;;; k" := (bind m (fun _ => k))
  (at level 61, right associativity).

(** ** Go [error] values and [errors.Join] *)

Module GoErrors.

(** A non-nil error.  [JoinError] is [*errors.joinError]; the two JSON
    constructors are [*json.SyntaxError] and [*json.UnmarshalTypeError]
    (the JSON kind that did not fit, and the Go type). *)
Inductive goerror : Type :=
| ErrorString (msg : string)
| JoinError (errs : list goerror)
| SyntaxError
| UnmarshalTypeError (value type : string).

(** The interface type [error]; [None] is [nil]. *)
Definition error : Type := option goerror.

Fixpoint non_nil (errs : list error) : list goerror :=
  match errs with
  | [] => []
  | None :: rest => non_nil rest
  | Some e :: rest => e :: non_nil rest
  end.

(** [errors.Join(errs...)]: nil values are discarded; the result is nil
    when nothing is left. *)
Definition Join (errs : list error) : error :=
  match non_nil errs with
  | [] => None
  | kept => Some (JoinError kept)
  end.

Definition newline : string := String (ascii_of_nat 10) EmptyString.

(** The [Error()] method.  The text of a syntax error depends on the
    scanner position in encoding/json; one representative text is kept. *)
Fixpoint Error (e : goerror) : string :=
  match e with
  | ErrorString msg => msg
  | JoinError errs => String.concat newline (map Error errs)
  | SyntaxError => "invalid character looking for beginning of value"
  | UnmarshalTypeError value type =>
      "json: cannot unmarshal " ++ value ++ " into Go value of type " ++ type
  end.

(** The errors at the leaves of a join tree, left to right: what
    [errors.Is]/[errors.As] walk through with [Unwrap() []error]. *)
Fixpoint leaves (e : goerror) : list goerror :=
  match e with
  | JoinError errs => flat_map leaves errs
  | other => [other]
  end.

Definition error_leaves (e : error) : list goerror :=
  match e with
  | None => []
  | Some g => leaves g
  end.

End GoErrors.
Export GoErrors.

(** ** Telemetry pipeline builder and shutdown coordinator *)

Module Otel.

(** [context.Context], as far as the code passes it around: the
    background context or one derived from the interrupt signal. *)
Inductive context : Type :=
| Background
| NotifyContext (done : bool).

Inductive propagator : Type :=
| TraceContext
| Baggage
| CompositeTextMapPropagator (ps : list propagator).

Inductive pipeline : Type := Traces | Metrics | Logs.

(** A teardown callback [func(context.Context) error]: the method value
    [provider.Shutdown] of one provider.  [td_id] identifies the provider
    it belongs to. *)
Record teardown : Type := {
  td_id : nat;
  td_run : context -> error
}.

(** What the exporter constructors of the SDK answer.  They are external
    to the repository. *)
Record Exporters : Type := {
  otlptracegrpc_New : string -> goerror + teardown;
  stdoutmetric_New : goerror + teardown;
  stdoutlog_New : goerror + teardown
}.

Record TracerProvider : Type := {
  tp_shutdown : teardown;
  tp_endpoint : string;
  tp_batchTimeout_ms : Z;
  tp_serviceName : string
}.

Record MeterProvider : Type := {
  mp_shutdown : teardown;
  mp_interval_ms : Z
}.

Record LoggerProvider : Type := {
  lp_shutdown : teardown
}.

(** Observable steps of the process, oldest first. *)
Inductive event : Type :=
| EvSetTextMapPropagator (p : propagator)
| EvConstruct (k : pipeline) (built : option nat)
| EvSetProvider (k : pipeline) (id : nat)
| EvTeardown (id : nat) (ctx : context)
| EvListenAndServe
| EvStop
| EvServerShutdown.

(** Process-wide OpenTelemetry globals. *)
Record Globals : Type := {
  textMapPropagator : option propagator;
  tracerProvider : option nat;
  meterProvider : option nat;
  loggerProvider : option nat
}.

(** [shutdownFuncs] is the slice variable captured by the [shutdown]
    closure; it lives in the state because the closure outlives the
    call that created it. *)
Record state : Type := {
  shutdownFuncs : list teardown;
  globals : Globals;
  history : list event
}.

Definition emit (e : event) : M state unit :=
  fun st => (tt, {| shutdownFuncs := shutdownFuncs st;
                    globals := globals st;
                    history := history st ++ [e] |}).

Definition get_shutdownFuncs : M state (list teardown) :=
  fun st => (shutdownFuncs st, st).

Definition set_shutdownFuncs (fns : list teardown) : M state unit :=
  fun st => (tt, {| shutdownFuncs := fns;
                    globals := globals st;
                    history := history st |}).

Definition set_globals (f : Globals -> Globals) : M state unit :=
  fun st => (tt, {| shutdownFuncs := shutdownFuncs st;
                    globals := f (globals st);
                    history := history st |}).

(** Calling one registered callback: [fn(ctx)]. *)
Definition call (fn : teardown) (ctx : context) : M state error :=
  emit (EvTeardown (td_id fn) ctx) ;;; ret (td_run fn ctx).

(** [for _, fn := range shutdownFuncs { err = errors.Join(err, fn(ctx)) }] *)
Fixpoint range_shutdownFuncs (ctx : context) (fns : list teardown)
  (err : error) : M state error :=
  match fns with
  | [] => ret err
  | fn :: rest =>
      e <- call fn ctx ;;
      range_shutdownFuncs ctx rest (Join [err; e])
  end.

(** The closure [shutdown] of both builders. *)
Definition shutdown (ctx : context) : M state error :=
  fns <- get_shutdownFuncs ;;
  err <- range_shutdownFuncs ctx fns None ;;
  set_shutdownFuncs [] ;;;
  ret err.

(** The closure [handleErr]: [err = errors.Join(inErr, shutdown(ctx))].
    The value assigned to the captured [err] is returned. *)
Definition handleErr (ctx : context) (inErr : goerror) : M state error :=
  e <- shutdown ctx ;;
  ret (Join [Some inErr; e]).

Definition append_shutdownFuncs (fn : teardown) : M state unit :=
  fns <- get_shutdownFuncs ;;
  set_shutdownFuncs (fns ++ [fn]).

Definition newPropagator : propagator :=
  CompositeTextMapPropagator [TraceContext; Baggage].

Definition SetTextMapPropagator (p : propagator) : M state unit :=
  emit (EvSetTextMapPropagator p) ;;;
  set_globals (fun g => {| textMapPropagator := Some p;
                           tracerProvider := tracerProvider g;
                           meterProvider := meterProvider g;
                           loggerProvider := loggerProvider g |}).

Definition SetTracerProvider (p : TracerProvider) : M state unit :=
  emit (EvSetProvider Traces (td_id (tp_shutdown p))) ;;;
  set_globals (fun g => {| textMapPropagator := textMapPropagator g;
                           tracerProvider := Some (td_id (tp_shutdown p));
                           meterProvider := meterProvider g;
                           loggerProvider := loggerProvider g |}).

Definition SetMeterProvider (p : MeterProvider) : M state unit :=
  emit (EvSetProvider Metrics (td_id (mp_shutdown p))) ;;;
  set_globals (fun g => {| textMapPropagator := textMapPropagator g;
                           tracerProvider := tracerProvider g;
                           meterProvider := Some (td_id (mp_shutdown p));
                           loggerProvider := loggerProvider g |}).

Definition SetLoggerProvider (p : LoggerProvider) : M state unit :=
  emit (EvSetProvider Logs (td_id (lp_shutdown p))) ;;;
  set_globals (fun g => {| textMapPropagator := textMapPropagator g;
                           tracerProvider := tracerProvider g;
                           meterProvider := meterProvider g;
                           loggerProvider := Some (td_id (lp_shutdown p)) |}).

Definition built_id {A} (f : A -> teardown) (r : goerror + A) : option nat :=
  match r with
  | inl _ => None
  | inr p => Some (td_id (f p))
  end.

Section Builder.

Variable sdk : Exporters.

Definition newMeterProvider : M state (goerror + MeterProvider) :=
  let r := match stdoutmetric_New sdk with
           | inl err => inl err
           | inr metricExporter =>
               inr {| mp_shutdown := metricExporter; mp_interval_ms := 3000 |}
           end in
  emit (EvConstruct Metrics (built_id mp_shutdown r)) ;;; ret r.

Definition newLoggerProvider : M state (goerror + LoggerProvider) :=
  let r := match stdoutlog_New sdk with
           | inl err => inl err
           | inr logExporter => inr {| lp_shutdown := logExporter |}
           end in
  emit (EvConstruct Logs (built_id lp_shutdown r)) ;;; ret r.

(** The part shared by both builders once the tracer provider
    constructor has answered: lines 49-76 of [internal/otel] and
    50-76 of [otel.go]. *)
Definition setupFrom (ctx : context)
  (r : goerror + TracerProvider) : M state error :=
  match r with
  | inl err => handleErr ctx err
  | inr tracerProvider =>
      append_shutdownFuncs (tp_shutdown tracerProvider) ;;;
      SetTracerProvider tracerProvider ;;;
      r <- newMeterProvider ;;
      match r with
      | inl err => handleErr ctx err
      | inr meterProvider =>
          append_shutdownFuncs (mp_shutdown meterProvider) ;;;
          SetMeterProvider meterProvider ;;;
          r <- newLoggerProvider ;;
          match r with
          | inl err => handleErr ctx err
          | inr loggerProvider =>
              append_shutdownFuncs (lp_shutdown loggerProvider) ;;;
              SetLoggerProvider loggerProvider ;;;
              ret None
          end
      end
  end.

End Builder.

(** [internal/otel]: the builder used by app-a, app-b and app-c. *)
Module Internal.

Definition newTracerProvider (sdk : Exporters) (serviceName endpoint : string)
  : M state (goerror + TracerProvider) :=
  let endpoint := if String.eqb endpoint EmptyString
                  then "localhost:4317" else endpoint in
  let r := match otlptracegrpc_New sdk endpoint with
           | inl err => inl err
           | inr otlpExporter =>
               inr {| tp_shutdown := otlpExporter;
                      tp_endpoint := endpoint;
                      tp_batchTimeout_ms := 1000;
                      tp_serviceName := serviceName |}
           end in
  emit (EvConstruct Traces (built_id tp_shutdown r)) ;;; ret r.

(** Returns the error; the returned closure is [shutdown] over the
    resulting state. *)
Definition SetupOTelSDK (sdk : Exporters) (ctx : context)
  (serviceName otlpEndpoint : string) : M state error :=
  set_shutdownFuncs [] ;;;
  SetTextMapPropagator newPropagator ;;;
  r <- newTracerProvider sdk serviceName otlpEndpoint ;;
  setupFrom sdk ctx r.

End Internal.

(** Root package [otel.go]: fixed service name and endpoint. *)
Module Legacy.

(** [trace.DefaultScheduleDelay] is 5000; the source multiplies it by
    [time.Millisecond]. *)
Definition DefaultScheduleDelay : Z := 5000.

Definition newTracerProvider (sdk : Exporters)
  : M state (goerror + TracerProvider) :=
  let r := match otlptracegrpc_New sdk "localhost:4317" with
           | inl err => inl err
           | inr otlpExporter =>
               inr {| tp_shutdown := otlpExporter;
                      tp_endpoint := "localhost:4317";
                      tp_batchTimeout_ms := DefaultScheduleDelay;
                      tp_serviceName := "go-observability-lab" |}
           end in
  emit (EvConstruct Traces (built_id tp_shutdown r)) ;;; ret r.

Definition setupOTelSDK (sdk : Exporters) (ctx : context) : M state error :=
  set_shutdownFuncs [] ;;;
  SetTextMapPropagator newPropagator ;;;
  r <- newTracerProvider sdk ;;
  setupFrom sdk ctx r.

End Legacy.

(** One of the two builders, with its arguments. *)
Inductive builder : Type :=
| UseInternal (serviceName otlpEndpoint : string)
| UseLegacy.

Definition build (sdk : Exporters) (ctx : context) (b : builder)
  : M state error :=
  match b with
  | UseInternal serviceName otlpEndpoint =>
      Internal.SetupOTelSDK sdk ctx serviceName otlpEndpoint
  | UseLegacy => Legacy.setupOTelSDK sdk ctx
  end.

(** Reading a history. *)

Fixpoint teardowns (h : list event) : list nat :=
  match h with
  | [] => []
  | EvTeardown id _ :: rest => id :: teardowns rest
  | _ :: rest => teardowns rest
  end.

Fixpoint built (h : list event) : list nat :=
  match h with
  | [] => []
  | EvConstruct _ (Some id) :: rest => id :: built rest
  | _ :: rest => built rest
  end.

Fixpoint constructions (h : list event) : list pipeline :=
  match h with
  | [] => []
  | EvConstruct k _ :: rest => k :: constructions rest
  | _ :: rest => constructions rest
  end.

(** Some constructor that the builder reaches fails. *)
Definition construction_fails (sdk : Exporters) (b : builder) : bool :=
  let endpoint := match b with
                  | UseInternal _ ep =>
                      if String.eqb ep EmptyString then "localhost:4317" else ep
                  | UseLegacy => "localhost:4317"
                  end in
  match otlptracegrpc_New sdk endpoint, stdoutmetric_New sdk,
        stdoutlog_New sdk with
  | inr _, inr _, inr _ => false
  | _, _, _ => true
  end.

End Otel.

(** ** Process lifecycle controller: [run] *)

Module Lifecycle.
Import Otel.

(** How the [select] in [run] resolves: the listener goroutine delivers
    the (always non-nil) result of [ListenAndServe] first, or the
    interrupt fires first and [srv.Shutdown] answers [drain]. *)
Inductive stop_cause : Type :=
| ListenerReturned (e : goerror)
| Interrupted (drain : error).

Record RunEnv : Type := {
  run_sdk : Exporters;
  OTEL_EXPORTER_OTLP_ENDPOINT : string;
  signalled_during_setup : bool;
  cause : stop_cause
}.

(** The deferred closure
    [func() { err = errors.Join(err, otelShutdown(context.Background())) }]:
    it reads the local variable [err] and assigns it; the value it
    assigns is what this computation yields. *)
Definition deferred_otelShutdown (err : error) : M state error :=
  e <- shutdown Background ;;
  ret (Join [err; e]).

(** [return err] inside [func run() error].  The result parameter is
    not named, so the operand is copied into the result slot first; the
    deferred calls run afterwards (last registered first: the telemetry
    closure, then [stop]) and the closure's assignment reaches the local
    variable only. *)
Definition return_unnamed (err : error) : M state error :=
  let result := err in
  _err <- deferred_otelShutdown err ;;
  emit EvStop ;;;
  ret result.

(** Lines 51-74 of app-a (and the same lines of app-b, app-c and the
    root [main.go]): from the start of the listener to the end. *)
Definition serve_until_stopped (env : RunEnv) : M state error :=
  emit EvListenAndServe ;;;
  match cause env with
  | ListenerReturned e =>
      (* case err = <-srvErr: return err *)
      return_unnamed (Some e)
  | Interrupted drain =>
      (* case <-ctx.Done(): stop() *)
      emit EvStop ;;;
      (* err = srv.Shutdown(context.Background()); return err *)
      emit EvServerShutdown ;;;
      return_unnamed drain
  end.

(** [run] of app-a, app-b and app-c ([serviceName] is the constant of
    the package). *)
Definition run (serviceName : string) (env : RunEnv) : M state error :=
  let ctx := NotifyContext (signalled_during_setup env) in
  let otlpEndpoint :=
    if String.eqb (OTEL_EXPORTER_OTLP_ENDPOINT env) EmptyString
    then "localhost:4317" else OTEL_EXPORTER_OTLP_ENDPOINT env in
  err <- Internal.SetupOTelSDK (run_sdk env) ctx serviceName otlpEndpoint ;;
  match err with
  | Some _ => emit EvStop ;;; ret err
  | None => serve_until_stopped env
  end.

(** [run] of the root [main.go]. *)
Definition run_legacy (env : RunEnv) : M state error :=
  let ctx := NotifyContext (signalled_during_setup env) in
  err <- Legacy.setupOTelSDK (run_sdk env) ctx ;;
  match err with
  | Some _ => emit EvStop ;;; ret err
  | None => serve_until_stopped env
  end.

(** The error that stopped the server, as [run] sees it. *)
Definition stop_error (env : RunEnv) : error :=
  match cause env with
  | ListenerReturned e => Some e
  | Interrupted drain => drain
  end.

End Lifecycle.

(** ** encoding/json, for the values the services exchange *)

Module Json.

(** A JSON text, parsed.  A number keeps its exact decimal value
    [mantissa * 10 ^ exp10] (negated when [neg]) and the literal it was
    read from; an object keeps every member of the text, in text
    order, a repeated key included ([stored] below is what a Go map
    keeps of them).  Bytes of a string literal from 0x80 on are kept as
    they are (encoding/json replaces the ones that are not UTF-8 by
    U+FFFD). *)
Inductive json : Type :=
| JNull
| JBool (b : bool)
| JNumber (neg : bool) (mantissa : N) (exp10 : Z) (literal : string)
| JString (s : string)
| JArray (items : list json)
| JObject (members : list (string * json)).

(** A value of Go type [map[string]interface{}]; [None] is the nil map. *)
Definition gomap : Type := option (list (string * json)).

Definition quote : ascii := ascii_of_nat 34.
Definition backslash : ascii := ascii_of_nat 92.

Definition is_space (c : ascii) : bool :=
  let n := nat_of_ascii c in
  (n =? 32)%nat || (n =? 9)%nat || (n =? 10)%nat || (n =? 13)%nat.

Fixpoint skip_space (s : string) : string :=
  match s with
  | String c rest => if is_space c then skip_space rest else s
  | EmptyString => s
  end.

Definition digit_value (c : ascii) : option N :=
  let n := N_of_ascii c in
  if ((48 <=? n) && (n <=? 57))%N then Some (n - 48)%N else None.

Definition hex_value (c : ascii) : option N :=
  let n := N_of_ascii c in
  if ((48 <=? n) && (n <=? 57))%N then Some (n - 48)%N
  else if ((97 <=? n) && (n <=? 102))%N then Some (n - 87)%N
  else if ((65 <=? n) && (n <=? 70))%N then Some (n - 55)%N
  else None.

(** *** Strings *)

(** What a string literal denotes before UTF-8 is produced: a byte
    copied from the input, or a UTF-16 code unit written [\uXXXX]. *)
Inductive unit16 : Type :=
| Raw (c : ascii)
| Escaped (u : N).

Definition simple_escape (c : ascii) : option ascii :=
  let n := nat_of_ascii c in
  if (n =? 34)%nat then Some quote
  else if (n =? 92)%nat then Some backslash
  else if (n =? 47)%nat then Some (ascii_of_nat 47)
  else if (n =? 98)%nat then Some (ascii_of_nat 8)
  else if (n =? 102)%nat then Some (ascii_of_nat 12)
  else if (n =? 110)%nat then Some (ascii_of_nat 10)
  else if (n =? 114)%nat then Some (ascii_of_nat 13)
  else if (n =? 116)%nat then Some (ascii_of_nat 9)
  else None.

Definition hex4 (a b c d : ascii) : option N :=
  match hex_value a, hex_value b, hex_value c, hex_value d with
  | Some x, Some y, Some z, Some w => Some (((x * 16 + y) * 16 + z) * 16 + w)%N
  | _, _, _, _ => None
  end.

(** The input after an opening quote: the units up to the closing
    quote, and what follows it. *)
Fixpoint scan_string (s : string) : option (list unit16 * string) :=
  match s with
  | EmptyString => None
  | String c rest =>
      if Ascii.eqb c quote then Some ([], rest)
      else if Ascii.eqb c backslash then
        match rest with
        | EmptyString => None
        | String e rest1 =>
            match simple_escape e with
            | Some x =>
                match scan_string rest1 with
                | Some (us, out) => Some (Raw x :: us, out)
                | None => None
                end
            | None =>
                if Ascii.eqb e "u" then
                  match rest1 with
                  | String h1 (String h2 (String h3 (String h4 rest2))) =>
                      match hex4 h1 h2 h3 h4 with
                      | Some u =>
                          match scan_string rest2 with
                          | Some (us, out) => Some (Escaped u :: us, out)
                          | None => None
                          end
                      | None => None
                      end
                  | _ => None
                  end
                else None
            end
        end
      else if (N_of_ascii c <? 32)%N then None
      else
        match scan_string rest with
        | Some (us, out) => Some (Raw c :: us, out)
        | None => None
        end
  end.

Definition byte (n : N) : ascii := ascii_of_N n.

(** UTF-8 of a code point. *)
Definition utf8 (cp : N) : string :=
  if (cp <? 128)%N then String (byte cp) EmptyString
  else if (cp <? 2048)%N then
    String (byte (192 + cp / 64)) (String (byte (128 + cp mod 64)) EmptyString)
  else if (cp <? 65536)%N then
    String (byte (224 + cp / 4096))
      (String (byte (128 + (cp / 64) mod 64))
         (String (byte (128 + cp mod 64)) EmptyString))
  else
    String (byte (240 + cp / 262144))
      (String (byte (128 + (cp / 4096) mod 64))
         (String (byte (128 + (cp / 64) mod 64))
            (String (byte (128 + cp mod 64)) EmptyString))).

Definition is_high_surrogate (u : N) : bool := ((55296 <=? u) && (u <? 56320))%N.
Definition is_low_surrogate (u : N) : bool := ((56320 <=? u) && (u <? 57344))%N.
Definition replacement : N := 65533.

(** A surrogate pair is one code point; a surrogate on its own becomes
    U+FFFD, as in encoding/json. *)
Fixpoint units_to_string (us : list unit16) : string :=
  match us with
  | [] => EmptyString
  | Raw c :: rest => String c (units_to_string rest)
  | Escaped u :: rest =>
      if is_high_surrogate u then
        match rest with
        | Escaped v :: rest' =>
            if is_low_surrogate v
            then utf8 (65536 + (u - 55296) * 1024 + (v - 56320))
                   ++ units_to_string rest'
            else utf8 replacement ++ units_to_string rest
        | _ => utf8 replacement ++ units_to_string rest
        end
      else if is_low_surrogate u then utf8 replacement ++ units_to_string rest
      else utf8 u ++ units_to_string rest
  end.

Definition parse_string (s : string) : option (string * string) :=
  match scan_string s with
  | Some (us, out) => Some (units_to_string us, out)
  | None => None
  end.

(** *** Numbers *)

(** Leading digits of [s]: their value, how many there are, the rest. *)
Fixpoint scan_digits (s : string) (acc : N) (count : nat) : N * nat * string :=
  match s with
  | String c rest =>
      match digit_value c with
      | Some d => scan_digits rest (acc * 10 + d)%N (S count)
      | None => (acc, count, s)
      end
  | EmptyString => (acc, count, s)
  end.

Definition starts_with (c : ascii) (s : string) : bool :=
  match s with
  | String d _ => Ascii.eqb c d
  | EmptyString => false
  end.

Definition tail (s : string) : string :=
  match s with
  | String _ rest => rest
  | EmptyString => EmptyString
  end.

(** The part of [text] read when [out] is what is left of it. *)
Definition consumed (text out : string) : string :=
  String.substring 0 (String.length text - String.length out) text.

(** An optional minus sign; an integer part without a leading zero
    (unless it is 0 alone); an optional fraction; an optional exponent. *)
Definition parse_number (text : string) : option (json * string) :=
  let neg := starts_with "-" text in
  let s := if neg then tail text else text in
  let '(int, n_int, s1) := scan_digits s 0%N 0%nat in
  if (n_int =? 0)%nat then None
  else if starts_with "0" s && negb (n_int =? 1)%nat then None
  else
    let frac :=
      if starts_with "." s1 then
        let '(m, n_frac, s2) := scan_digits (tail s1) int 0%nat in
        if (n_frac =? 0)%nat then None else Some (m, n_frac, s2)
      else Some (int, 0%nat, s1) in
    match frac with
    | None => None
    | Some (m, n_frac, s2) =>
        if starts_with "e" s2 || starts_with "E" s2 then
          let s3 := tail s2 in
          let eneg := starts_with "-" s3 in
          let s4 := if eneg || starts_with "+" s3 then tail s3 else s3 in
          let '(e, n_exp, s5) := scan_digits s4 0%N 0%nat in
          if (n_exp =? 0)%nat then None
          else
            let e := if eneg then (- Z.of_N e)%Z else Z.of_N e in
            Some (JNumber neg m (e - Z.of_nat n_frac) (consumed text s5), s5)
        else Some (JNumber neg m (- Z.of_nat n_frac) (consumed text s2), s2)
    end.

(** *** Values *)

Fixpoint strip_prefix (p s : string) : option string :=
  match p, s with
  | EmptyString, _ => Some s
  | String a p', String b s' => if Ascii.eqb a b then strip_prefix p' s' else None
  | String _ _, EmptyString => None
  end.

Definition literal (word : string) (v : json) (s : string) : option (json * string) :=
  match strip_prefix word s with
  | Some rest => Some (v, rest)
  | None => None
  end.

(** encoding/json refuses arrays and objects nested deeper than this. *)
Definition maxNestingDepth : N := 10000.

(** [depth] counts the arrays and objects around the value. *)
Fixpoint parse_value (fuel : nat) (depth : N) (s : string) {struct fuel}
  : option (json * string) :=
  match fuel with
  | O => None
  | S fuel' =>
      match skip_space s with
      | EmptyString => None
      | String c rest =>
          if Ascii.eqb c quote then
            match parse_string rest with
            | Some (str, out) => Some (JString str, out)
            | None => None
            end
          else if Ascii.eqb c "[" then
            if (maxNestingDepth <? depth + 1)%N then None
            else if starts_with "]" (skip_space rest)
            then Some (JArray [], tail (skip_space rest))
            else
              match parse_elements fuel' (depth + 1) rest with
              | Some (items, out) => Some (JArray items, out)
              | None => None
              end
          else if Ascii.eqb c "{" then
            if (maxNestingDepth <? depth + 1)%N then None
            else if starts_with "}" (skip_space rest)
            then Some (JObject [], tail (skip_space rest))
            else
              match parse_members fuel' (depth + 1) rest with
              | Some (ms, out) => Some (JObject ms, out)
              | None => None
              end
          else if Ascii.eqb c "t" then literal "true" (JBool true) (String c rest)
          else if Ascii.eqb c "f" then literal "false" (JBool false) (String c rest)
          else if Ascii.eqb c "n" then literal "null" JNull (String c rest)
          else parse_number (String c rest)
      end
  end

with parse_elements (fuel : nat) (depth : N) (s : string) {struct fuel}
  : option (list json * string) :=
  match fuel with
  | O => None
  | S fuel' =>
      match parse_value fuel' depth s with
      | None => None
      | Some (v, out) =>
          match skip_space out with
          | String c rest =>
              if Ascii.eqb c "," then
                match parse_elements fuel' depth rest with
                | Some (vs, out') => Some (v :: vs, out')
                | None => None
                end
              else if Ascii.eqb c "]" then Some ([v], rest)
              else None
          | EmptyString => None
          end
      end
  end

with parse_members (fuel : nat) (depth : N) (s : string) {struct fuel}
  : option (list (string * json) * string) :=
  match fuel with
  | O => None
  | S fuel' =>
      match skip_space s with
      | String q rest =>
          if Ascii.eqb q quote then
            match parse_string rest with
            | None => None
            | Some (k, out) =>
                match skip_space out with
                | String colon rest1 =>
                    if Ascii.eqb colon ":" then
                      match parse_value fuel' depth rest1 with
                      | None => None
                      | Some (v, out1) =>
                          match skip_space out1 with
                          | String c rest2 =>
                              if Ascii.eqb c "," then
                                match parse_members fuel' depth rest2 with
                                | Some (ms, out2) => Some ((k, v) :: ms, out2)
                                | None => None
                                end
                              else if Ascii.eqb c "}" then Some ([(k, v)], rest2)
                              else None
                          | EmptyString => None
                          end
                      end
                    else None
                | EmptyString => None
                end
            end
          else None
      | EmptyString => None
      end
  end.

(** Fuel that is enough for a text: at most two calls per character. *)
Definition fuel_for (data : string) : nat := 2 * String.length data + 2.

(** A whole text: one value, white space around it, nothing else. *)
Definition parse (data : string) : option json :=
  match parse_value (fuel_for data) 0 data with
  | Some (v, out) =>
      match skip_space out with
      | EmptyString => Some v
      | String _ _ => None
      end
  | None => None
  end.

Definition Valid (data : string) : bool :=
  match parse data with
  | Some _ => true
  | None => false
  end.

(** *** Decoding into [map[string]interface{}] *)

(** A number held in an [interface{}] becomes a float64: the literal is
    out of range when it rounds to infinity, that is from
    [(2^54 - 1) * 2^970] on. *)
Definition float64_limit : Z := ((2 ^ 54 - 1) * 2 ^ 970)%Z.

Definition fits_float64 (mantissa : N) (exp10 : Z) : bool :=
  if (0 <=? exp10)%Z
  then (Z.of_N mantissa * 10 ^ exp10 <? float64_limit)%Z
  else (Z.of_N mantissa <? float64_limit * 10 ^ (- exp10))%Z.

(** Every number of the text, whichever key or index it sits under. *)
Fixpoint numbers_fit (v : json) : bool :=
  match v with
  | JNumber _ mantissa exp10 _ => fits_float64 mantissa exp10
  | JArray items => forallb numbers_fit items
  | JObject members =>
      forallb (fun kv => let '(_, x) := kv in numbers_fit x) members
  | _ => true
  end.

Section First.

Context {A : Type} (f : A -> option string).

(** The first answer [f] gives along a list. *)
Fixpoint first_of (l : list A) : option string :=
  match l with
  | [] => None
  | x :: rest =>
      match f x with
      | Some found => Some found
      | None => first_of rest
      end
  end.

End First.

(** The literal of the first number, in text order, that does not fit
    a float64.  The decoder converts every number it meets, also one
    under a key that a later member overwrites, and keeps the first
    error. *)
Fixpoint out_of_range (v : json) : option string :=
  match v with
  | JNumber _ mantissa exp10 literal =>
      if fits_float64 mantissa exp10 then None else Some literal
  | JArray items => first_of out_of_range items
  | JObject members =>
      first_of (fun kv => let '(_, x) := kv in out_of_range x) members
  | _ => None
  end.

Fixpoint has_key (k : string) (ms : list (string * json)) : bool :=
  match ms with
  | [] => false
  | (k', _) :: rest => String.eqb k k' || has_key k rest
  end.

(** A member in front of the members that follow it in the text:
    [m[key] = value] of a later member with the same key replaces it. *)
Definition add_member (k : string) (v : json) (later : list (string * json)) :=
  if has_key k later then later else (k, v) :: later.

(** The value an [interface{}] holds once the text is decoded: every
    object a map, with one member per key. *)
Fixpoint stored (v : json) : json :=
  match v with
  | JArray items => JArray (map stored items)
  | JObject members =>
      JObject (fold_right
                 (fun kv later => let '(k, x) := kv in add_member k (stored x) later)
                 [] members)
  | other => other
  end.

Definition stored_members (members : list (string * json)) : list (string * json) :=
  fold_right (fun kv later => let '(k, x) := kv in add_member k (stored x) later)
    [] members.

Definition map_type : string := "map[string]interface {}".

(** [json.Unmarshal(data, &result)] with [var result map[string]interface{}]:
    the text is checked first; then every member is decoded and
    stored, and the first conversion error is what the call returns. *)
Definition Unmarshal (data : string) : goerror + gomap :=
  match parse data with
  | None => inl SyntaxError
  | Some JNull => inr None
  | Some (JObject members) =>
      match out_of_range (JObject members) with
      | Some literal => inl (UnmarshalTypeError ("number " ++ literal) "float64")
      | None => inr (Some (stored_members members))
      end
  | Some (JBool _) => inl (UnmarshalTypeError "bool" map_type)
  | Some (JNumber _ _ _ _) => inl (UnmarshalTypeError "number" map_type)
  | Some (JString _) => inl (UnmarshalTypeError "string" map_type)
  | Some (JArray _) => inl (UnmarshalTypeError "array" map_type)
  end.

Fixpoint lookup (k : string) (members : list (string * json)) : option json :=
  match members with
  | [] => None
  | (k', v) :: rest => if String.eqb k k' then Some v else lookup k rest
  end.

(** *** Encoding *)

Definition hex_digit (n : N) : ascii :=
  if (n <? 10)%N then ascii_of_N (48 + n) else ascii_of_N (87 + n).

Definition escape_char (c : ascii) : string :=
  let n := N_of_ascii c in
  let short (x : ascii) := String backslash (String x EmptyString) in
  if (n =? 34)%N then short quote
  else if (n =? 92)%N then short backslash
  else if (n =? 8)%N then short "b"%char
  else if (n =? 12)%N then short "f"%char
  else if (n =? 10)%N then short "n"%char
  else if (n =? 13)%N then short "r"%char
  else if (n =? 9)%N then short "t"%char
  else if (n <? 32)%N || (n =? 60)%N || (n =? 62)%N || (n =? 38)%N then
    String backslash
      (String "u" (String "0" (String "0"
         (String (hex_digit (n / 16)) (String (hex_digit (n mod 16)) EmptyString)))))
  else String c EmptyString.

Fixpoint escape (s : string) : string :=
  match s with
  | EmptyString => EmptyString
  | String c rest => escape_char c ++ escape rest
  end.

Definition encode_string (s : string) : string :=
  String quote (escape s ++ String quote EmptyString).

Definition decimal (n : N) : string := NilEmpty.string_of_uint (N.to_uint n).

(** The decimal that was read, written back.  (Go formats the float64
    it holds; the text here denotes the decimal before rounding.) *)
Definition encode_number (neg : bool) (mantissa : N) (exp10 : Z) : string :=
  (if neg then "-" else EmptyString) ++ decimal mantissa
    ++ (if (exp10 =? 0)%Z then EmptyString
        else "e" ++ (if (exp10 <? 0)%Z then "-" else EmptyString)
               ++ decimal (Z.abs_N exp10)).

Fixpoint insert_member (kv : string * string) (l : list (string * string)) :=
  match l with
  | [] => [kv]
  | h :: t =>
      if String.leb (fst kv) (fst h) then kv :: l else h :: insert_member kv t
  end.

(** Map keys are written in sorted order. *)
Definition sort_members (l : list (string * string)) : list (string * string) :=
  fold_right insert_member [] l.

Definition encode_member (kv : string * string) : string :=
  encode_string (fst kv) ++ ":" ++ snd kv.

Fixpoint encode (v : json) : string :=
  match v with
  | JNull => "null"
  | JBool true => "true"
  | JBool false => "false"
  | JNumber neg mantissa exp10 _ => encode_number neg mantissa exp10
  | JString s => encode_string s
  | JArray items => "[" ++ String.concat "," (map encode items) ++ "]"
  | JObject members =>
      "{" ++ String.concat ","
               (map encode_member
                  (sort_members
                     (map (fun kv => let '(k, x) := kv in (k, encode x)) members)))
          ++ "}"
  end.

(** A [map[string]interface{}] stored in an [interface{}]. *)
Definition of_gomap (m : gomap) : json :=
  match m with
  | None => JNull
  | Some members => JObject members
  end.

(** What [json.NewEncoder(w).Encode(v)] writes. *)
Definition Encode (v : json) : string := encode v ++ newline.

End Json.

(** ** net/http, as far as the handlers use it *)

Module Http.

Definition StatusOK : Z := 200.
Definition StatusMovedPermanently : Z := 301.
Definition StatusInternalServerError : Z := 500.

(** The state behind an [http.ResponseWriter]: the status line once it
    is written, the header map, the bytes written so far. *)
Record ResponseWriter : Type := {
  status : option Z;
  header : list (string * string);
  body : string
}.

Definition new_response : ResponseWriter :=
  {| status := None; header := []; body := EmptyString |}.

(** [w.WriteHeader(code)]: a second call is ignored. *)
Definition WriteHeader (code : Z) (w : ResponseWriter) : ResponseWriter :=
  match status w with
  | Some _ => w
  | None => {| status := Some code; header := header w; body := body w |}
  end.

(** [w.Write(data)]: writes the 200 status line first when none was
    written. *)
Definition Write (data : string) (w : ResponseWriter) : ResponseWriter :=
  let w := WriteHeader StatusOK w in
  {| status := status w; header := header w; body := body w ++ data |}.

Fixpoint set_field (k v : string) (h : list (string * string)) :=
  match h with
  | [] => [(k, v)]
  | (k', v') :: rest =>
      if String.eqb k k' then (k, v) :: rest else (k', v') :: set_field k v rest
  end.

Fixpoint get_field (k : string) (h : list (string * string)) : option string :=
  match h with
  | [] => None
  | (k', v) :: rest => if String.eqb k k' then Some v else get_field k rest
  end.

Fixpoint del_field (k : string) (h : list (string * string)) :=
  match h with
  | [] => []
  | (k', v) :: rest =>
      if String.eqb k k' then del_field k rest else (k', v) :: del_field k rest
  end.

(** [w.Header().Set(k, v)] *)
Definition Header_Set (k v : string) (w : ResponseWriter) : ResponseWriter :=
  {| status := status w; header := set_field k v (header w); body := body w |}.

Definition Header_Del (k : string) (w : ResponseWriter) : ResponseWriter :=
  {| status := status w; header := del_field k (header w); body := body w |}.

(** [http.Error(w, error, code)]: plain-text headers, the status line,
    then the message and a line feed ([fmt.Fprintln]). *)
Definition Error_ (msg : string) (code : Z) (w : ResponseWriter) : ResponseWriter :=
  let w := Header_Del "Content-Length" w in
  let w := Header_Set "Content-Type" "text/plain; charset=utf-8" w in
  let w := Header_Set "X-Content-Type-Options" "nosniff" w in
  let w := WriteHeader code w in
  Write (msg ++ newline) w.

Definition htmlEscape_char (c : ascii) : string :=
  let n := nat_of_ascii c in
  if (n =? 38)%nat then "&amp;"
  else if (n =? 60)%nat then "&lt;"
  else if (n =? 62)%nat then "&gt;"
  else if (n =? 34)%nat then "&#34;"
  else if (n =? 39)%nat then "&#39;"
  else String c EmptyString.

Fixpoint htmlEscape (s : string) : string :=
  match s with
  | EmptyString => EmptyString
  | String c rest => htmlEscape_char c ++ htmlEscape rest
  end.

(** [http.Redirect(w, r, url, 301)] for a rooted, clean [url] without
    query: the [Location] header, the status line and, when no content
    type was set, an HTML content type for GET and HEAD and a short
    HTML body for GET ([fmt.Fprintln] adds the second line feed). *)
Definition Redirect (method url : string) (w : ResponseWriter) : ResponseWriter :=
  let hadCT := match get_field "Content-Type" (header w) with
               | Some _ => true
               | None => false
               end in
  let w := Header_Set "Location" url w in
  let w := if negb hadCT && (String.eqb method "GET" || String.eqb method "HEAD")
           then Header_Set "Content-Type" "text/html; charset=utf-8" w else w in
  let w := WriteHeader StatusMovedPermanently w in
  if negb hadCT && String.eqb method "GET"
  then Write ("<a href=" ++ String (ascii_of_nat 34) (htmlEscape url)
                ++ String (ascii_of_nat 34) ">Moved Permanently</a>."
                ++ newline ++ newline) w
  else w.

(** *** Path cleaning *)

(** The elements of a path: what stands between its slashes. *)
Fixpoint path_elements (s : string) (current : string) : list string :=
  match s with
  | EmptyString => [current]
  | String c rest =>
      if Ascii.eqb c "/" then current :: path_elements rest EmptyString
      else path_elements rest (current ++ String c EmptyString)
  end.

(** The elements [path.Clean] keeps of a rooted path, last one first:
    empty elements and [.] go, [..] takes the element before it with
    it, and goes alone at the root. *)
Fixpoint kept_elements (elements : list string) (kept : list string) : list string :=
  match elements with
  | [] => kept
  | e :: rest =>
      if String.eqb e EmptyString || String.eqb e "." then kept_elements rest kept
      else if String.eqb e ".." then kept_elements rest (List.tl kept)
      else kept_elements rest (e :: kept)
  end.

(** [path.Clean] on a rooted path, the only kind [cleanPath] gives it. *)
Definition Clean (p : string) : string :=
  "/" ++ String.concat "/" (rev (kept_elements (path_elements p EmptyString) [])).

Fixpoint ends_with_slash (s : string) : bool :=
  match s with
  | EmptyString => false
  | String c EmptyString => Ascii.eqb c "/"
  | String _ rest => ends_with_slash rest
  end.

(** [cleanPath] of net/http: the canonical path of [p], rooted, with
    the trailing slash of [p] kept. *)
Definition cleanPath (p : string) : string :=
  match p with
  | EmptyString => "/"
  | String c _ =>
      let p := if Ascii.eqb c "/" then p else "/" ++ p in
      let np := Clean p in
      if ends_with_slash p && negb (String.eqb np "/") then np ++ "/" else np
  end.

(** The status the client sees: 200 when the handler wrote none. *)
Definition status_sent (w : ResponseWriter) : Z :=
  match status w with
  | Some code => code
  | None => StatusOK
  end.

(** The response a client holds: status code, and what [io.ReadAll]
    yields on its body. *)
Record Response : Type := {
  StatusCode : Z;
  Body : goerror + string
}.

Definition response_of (w : ResponseWriter) : Response :=
  {| StatusCode := status_sent w; Body := inr (body w) |}.

End Http.

(** ** Spans *)

Module Trace.

Inductive attribute : Type :=
| AttrString (key value : string)
| AttrInt (key : string) (value : Z).

(** Calls made on spans, oldest first. *)
Inductive span_event : Type :=
| SpanStart (id : nat) (name : string) (parent : option nat)
| SpanSetAttributes (id : nat) (attrs : list attribute)
| SpanRecordError (id : nat) (err : goerror)
| SpanEnd (id : nat).

(** The tracer of one process: the next span identity and the calls
    recorded so far. *)
Record tracer : Type := {
  next_id : nat;
  recorded : list span_event
}.

(** A request-scoped [context.Context]: the span it carries, if any. *)
Record rctx : Type := {
  ctx_span : option nat
}.

(** State of a handler run: the response being written and the
    process tracer. *)
Record hstate : Type := {
  rw : Http.ResponseWriter;
  tr : tracer
}.

Definition record_event (e : span_event) : M hstate unit :=
  fun st => (tt, {| rw := rw st;
                    tr := {| next_id := next_id (tr st);
                             recorded := recorded (tr st) ++ [e] |} |}).

(** [tracer.Start(ctx, name)]: a new span, child of the span in [ctx];
    the returned context carries it. *)
Definition Start (ctx : rctx) (name : string) : M hstate (rctx * nat) :=
  fun st =>
    let id := next_id (tr st) in
    ((({| ctx_span := Some id |}), id),
     {| rw := rw st;
        tr := {| next_id := S id;
                 recorded := recorded (tr st) ++ [SpanStart id name (ctx_span ctx)] |} |}).

Definition SetAttributes (span : nat) (attrs : list attribute) : M hstate unit :=
  record_event (SpanSetAttributes span attrs).

Definition RecordError (span : nat) (err : goerror) : M hstate unit :=
  record_event (SpanRecordError span err).

Definition End_ (span : nat) : M hstate unit :=
  record_event (SpanEnd span).

(** [defer d] at the top of a function body: [d] runs when the body
    returns, on whichever path. *)
Definition defer {A} (d : M hstate unit) (body : M hstate A) : M hstate A :=
  x <- body ;;
  d ;;;
  ret x.

(** Changing the response. *)
Definition respond (f : Http.ResponseWriter -> Http.ResponseWriter) : M hstate unit :=
  fun st => (tt, {| rw := f (rw st); tr := tr st |}).

(** The span a recording call is made on. *)
Definition recording_on (id : nat) (e : span_event) : bool :=
  match e with
  | SpanSetAttributes id' _ => Nat.eqb id id'
  | SpanRecordError id' _ => Nat.eqb id id'
  | _ => false
  end.

End Trace.

(** ** Service nodes *)

Module Node.
Import Http Trace Json.

(** A request as the server hands it to the handler: [r.Method],
    [r.URL.Path] and [r.Context()]. *)
Record Request : Type := {
  Method : string;
  Path : string;
  Context : rctx
}.

(** What [http.NewRequestWithContext] returns on success. *)
Record OutRequest : Type := {
  out_method : string;
  out_url : string;
  out_ctx : rctx
}.

(** The surroundings of a node: its environment variables, whether a
    URL parses, and how the network answers an outbound request (a
    transport error, a timeout included, or a response). *)
Record NodeEnv : Type := {
  Getenv : string -> string;
  url_error : string -> option goerror;
  Do : OutRequest -> goerror + Response
}.

Definition NewRequestWithContext (env : NodeEnv) (ctx : rctx)
  (method url : string) : goerror + OutRequest :=
  match url_error env url with
  | Some err => inl err
  | None => inr {| out_method := method; out_url := url; out_ctx := ctx |}
  end.

(** What differs between app-a and app-b. *)
Record Forwarder : Type := {
  serviceName : string;
  next_env : string;
  next_default : string;
  call_name : string;
  url_attr : string;
  message : string
}.

Section Forwarding.

Variable cfg : Forwarder.
Variable env : NodeEnv.

(** [callAppB] of app-a and [callAppC] of app-b.  [Do env req] is
    [client.Do(req)] with the client the function builds: transport,
    time-out and redirects belong to the surroundings.  What is
    recorded is what the function does on the span it starts itself;
    the client span, which [otelhttp.NewTransport] starts and ends
    inside [client.Do] and the reading of the body, is the
    transport's and has no entry here. *)
Definition callNext (ctx : rctx) (url : string) : M hstate (goerror + gomap) :=
  cs <- Start ctx (call_name cfg) ;;
  let '(ctx, span) := cs in
  defer (End_ span) (
    SetAttributes span [AttrString (url_attr cfg) url] ;;;
    match NewRequestWithContext env ctx "GET" (url ++ "/") with
    | inl err => ret (inl err)
    | inr req =>
        match Do env req with
        | inl err => ret (inl err)
        | inr resp =>
            (* defer resp.Body.Close() *)
            match Body resp with
            | inl err => ret (inl err)
            | inr body =>
                match Unmarshal body with
                | inl err => ret (inl err)
                | inr result =>
                    SetAttributes span [AttrInt "http.status_code" (StatusCode resp)] ;;;
                    ret (inr result)
                end
            end
        end
    end).

Definition next_url : string :=
  if String.eqb (Getenv env (next_env cfg)) EmptyString
  then next_default cfg else Getenv env (next_env cfg).

(** [handleRoot] of app-a and app-b. *)
Definition handleRoot (r : Request) : M hstate unit :=
  cs <- Start (Context r) "handleRoot" ;;
  let '(ctx, span) := cs in
  defer (End_ span) (
    SetAttributes span [AttrString "http.method" (Method r);
                        AttrString "http.path" (Path r)] ;;;
    res <- callNext ctx next_url ;;
    match res with
    | inl err =>
        RecordError span err ;;;
        respond (Error_ (Error err) StatusInternalServerError)
    | inr result =>
        let response := JObject [("service", JString (serviceName cfg));
                                 ("message", JString (message cfg));
                                 ("result", of_gomap result)] in
        respond (Header_Set "Content-Type" "application/json") ;;;
        respond (Write (Encode response))
    end).

End Forwarding.

(** [handleHealth], the same in every node. *)
Definition handleHealth (r : Request) : M hstate unit :=
  respond (WriteHeader StatusOK) ;;;
  respond (Write "OK").

(** [otelhttp.WithRouteTag(pattern, h)]: tags the span found in the
    request context with the route, then runs [h]. *)
Definition WithRouteTag (pattern : string) (h : Request -> M hstate unit)
  (r : Request) : M hstate unit :=
  match ctx_span (Context r) with
  | Some span => SetAttributes span [AttrString "http.route" pattern] ;;; h r
  | None => h r
  end.

(** [otelhttp.NewHandler(next, operation)] without filters: every
    request gets a server span named after the operation, carried to
    [next] in the request context, and ended when [next] returns. *)
Definition otelhttp_NewHandler (next : Request -> M hstate unit)
  (operation : string) (r : Request) : M hstate unit :=
  cs <- Start (Context r) operation ;;
  let '(ctx, span) := cs in
  defer (End_ span)
    (next {| Method := Method r; Path := Path r; Context := ctx |}).

(** The [http.ServeMux] with the two patterns every node registers.
    A request whose path is not in canonical form is answered by the
    mux itself, with a redirect to the canonical path, and reaches no
    handler; of the others ["/health"] matches that path only, ["/"]
    matches every other one.  (The redirect is written for a request
    without query whose path needs no escaping in a URL; CONNECT
    requests and the asterisk form, which the mux treats apart, are
    not modelled.) *)
Definition mux (root health : Request -> M hstate unit) (r : Request)
  : M hstate unit :=
  if String.eqb (cleanPath (Path r)) (Path r) then
    if String.eqb (Path r) "/health" then health r else root r
  else respond (Redirect (Method r) (cleanPath (Path r))).

(** [newHTTPHandler] of a node whose root handler is [root]. *)
Definition newHTTPHandlerWith (root : Request -> M hstate unit)
  : Request -> M hstate unit :=
  otelhttp_NewHandler
    (mux (WithRouteTag "/" root) (WithRouteTag "/health" handleHealth)) "/".

(** One request served by a handler of a process whose tracer is [t]:
    what the client receives and what the process recorded. *)
Definition serve (h : Request -> M hstate unit) (r : Request) (t : tracer)
  : Response * tracer :=
  let st := snd (h r {| rw := new_response; tr := t |}) in
  (response_of (rw st), tr st).

End Node.

Module AppA.
Import Node.

Definition config : Forwarder :=
  {| serviceName := "app-a";
     next_env := "APP_B_URL";
     next_default := "http://localhost:8081";
     call_name := "callAppB";
     url_attr := "app.b.url";
     message := "Chamou App B com sucesso" |}.

Definition callAppB := callNext config.
Definition handleRoot := Node.handleRoot config.
Definition newHTTPHandler (env : NodeEnv) := newHTTPHandlerWith (handleRoot env).

End AppA.

Module AppB.
Import Node.

Definition config : Forwarder :=
  {| serviceName := "app-b";
     next_env := "APP_C_URL";
     next_default := "http://localhost:8082";
     call_name := "callAppC";
     url_attr := "app.c.url";
     message := "Chamou App C com sucesso" |}.

Definition callAppC := callNext config.
Definition handleRoot := Node.handleRoot config.
Definition newHTTPHandler (env : NodeEnv) := newHTTPHandlerWith (handleRoot env).

End AppB.

Module AppC.
Import Http Trace Json Node.

Definition serviceName : string := "app-c".

(** [handleRoot] of the terminal node.  The 100 ms sleep has no effect
    on what is recorded or answered. *)
Definition handleRoot (r : Request) : M hstate unit :=
  cs <- Start (Context r) "handleRoot" ;;
  let '(_, span) := cs in
  defer (End_ span) (
    SetAttributes span [AttrString "http.method" (Method r);
                        AttrString "http.path" (Path r)] ;;;
    let response := JObject [("service", JString serviceName);
                             ("message", JString "Resposta final do App C");
                             ("status", JString "success")] in
    SetAttributes span [AttrString "response.status" "success"] ;;;
    respond (Header_Set "Content-Type" "application/json") ;;;
    respond (Write (Encode response))).

Definition newHTTPHandler := newHTTPHandlerWith handleRoot.

End AppC.

(** ** Vocabulary of the lifecycle properties *)

Module LifecycleProps.
Import Otel Lifecycle.

(** Calling the aggregate shutdown function once per context of
    [ctxs], in turn. *)
Fixpoint invocations (ctxs : list context) : M state (list error) :=
  match ctxs with
  | [] => ret []
  | ctx :: rest =>
      e <- shutdown ctx ;;
      es <- invocations rest ;;
      ret (e :: es)
  end.

(** The states in which the aggregate shutdown function has run: the
    caller invoked it, or a build failed and [handleErr] invoked it. *)
Inductive shutdown_has_run : state -> Prop :=
| run_by_caller (ctx : context) (st : state) :
    shutdown_has_run (snd (shutdown ctx st))
| run_by_failed_build (sdk : Exporters) (ctx : context) (b : builder) (st : state) :
    fst (build sdk ctx b st) <> None ->
    shutdown_has_run (snd (build sdk ctx b st)).

Definition teardown_event (ctx : context) (fn : teardown) : event :=
  EvTeardown (td_id fn) ctx.

(** The results of the callbacks of a registry, in registration order. *)
Definition callback_results (ctx : context) (fns : list teardown) : list error :=
  map (fun fn => td_run fn ctx) fns.

(** The error accumulated by the loop of [shutdown]. *)
Definition joined (ctx : context) (fns : list teardown) (err : error) : error :=
  fold_left (fun acc fn => Join [acc; td_run fn ctx]) fns err.

(** A provider whose [Shutdown] answers [e]. *)
Definition provider (id : nat) (e : error) : teardown :=
  {| td_id := id; td_run := fun _ => e |}.

(** Exporters that are all constructed; their shutdowns answer [t],
    [m] and [l]. *)
Definition working_sdk (t m l : error) : Exporters :=
  {| otlptracegrpc_New := fun _ => inr (provider 1 t);
     stdoutmetric_New := inr (provider 2 m);
     stdoutlog_New := inr (provider 3 l) |}.

(** Traces and metrics are constructed, the log exporter is not. *)
Definition sdk_without_logs (t m : error) (failure : goerror) : Exporters :=
  {| otlptracegrpc_New := fun _ => inr (provider 1 t);
     stdoutmetric_New := inr (provider 2 m);
     stdoutlog_New := inl failure |}.

(** A process that has not touched the telemetry globals yet. *)
Definition fresh : state :=
  {| shutdownFuncs := [];
     globals := {| textMapPropagator := None; tracerProvider := None;
                   meterProvider := None; loggerProvider := None |};
     history := [] |}.

(** [return err] as the specification reads [run]: the teardown error
    joined by the deferred closure is what the caller receives (a named
    result, [func run() (err error)]). *)
Definition return_named (err : error) : M state error :=
  err' <- deferred_otelShutdown err ;;
  emit EvStop ;;;
  ret err'.

(** The error [run] would return after reaching the listening state if
    the result were named. *)
Definition merged_outcome (env : RunEnv) : M state error :=
  emit EvListenAndServe ;;;
  match cause env with
  | ListenerReturned e => return_named (Some e)
  | Interrupted drain => emit EvStop ;;; emit EvServerShutdown ;;; return_named drain
  end.

(** [run] of a node with a named result. *)
Definition run_named (serviceName : string) (env : RunEnv) : M state error :=
  let ctx := NotifyContext (signalled_during_setup env) in
  let otlpEndpoint :=
    if String.eqb (OTEL_EXPORTER_OTLP_ENDPOINT env) EmptyString
    then "localhost:4317" else OTEL_EXPORTER_OTLP_ENDPOINT env in
  err <- Internal.SetupOTelSDK (run_sdk env) ctx serviceName otlpEndpoint ;;
  match err with
  | Some _ => emit EvStop ;;; ret err
  | None => merged_outcome env
  end.

(** A registry of two providers: the first shuts down cleanly, the
    second fails with "x". *)
Definition two_providers : state :=
  {| shutdownFuncs := [provider 1 None; provider 2 (Some (ErrorString "x"))];
     globals := globals fresh;
     history := [] |}.

(** A run that starts, is interrupted, drains cleanly, and whose trace
    provider fails to shut down with error [x]. *)
Definition interrupted_with_failing_teardown : RunEnv :=
  {| run_sdk := working_sdk (Some (ErrorString "x")) None None;
     OTEL_EXPORTER_OTLP_ENDPOINT := EmptyString;
     signalled_during_setup := false;
     cause := Interrupted None |}.

End LifecycleProps.

(** ** Vocabulary of the request properties *)

Module NodeProps.
Import Http Trace Json Node.

(** The two forwarding nodes. *)
Inductive forwarding_node : Type := NodeA | NodeB.

Definition forwarder (n : forwarding_node) : Forwarder :=
  match n with
  | NodeA => AppA.config
  | NodeB => AppB.config
  end.

Inductive service : Type := ServiceA | ServiceB | ServiceC.

Definition newHTTPHandler (s : service) (env : NodeEnv) : Request -> M hstate unit :=
  match s with
  | ServiceA => AppA.newHTTPHandler env
  | ServiceB => AppB.newHTTPHandler env
  | ServiceC => AppC.newHTTPHandler
  end.

(** The outbound exchange by itself: the error, or the status code and
    the decoded map. *)
Definition exchange (env : NodeEnv) (sent : rctx) (url : string)
  : goerror + (Z * gomap) :=
  match NewRequestWithContext env sent "GET" (url ++ "/") with
  | inl err => inl err
  | inr req =>
      match Do env req with
      | inl err => inl err
      | inr resp =>
          match Body resp with
          | inl err => inl err
          | inr body =>
              match Unmarshal body with
              | inl err => inl err
              | inr result => inr (StatusCode resp, result)
              end
          end
      end
  end.

(** The ways an outbound call fails with [err]: the request is not
    created, it is not issued (transport error, timeout), the body is
    not read, or the body does not decode into the map. *)
Inductive call_failure (env : NodeEnv) (sent : rctx) (url : string)
  : goerror -> Prop :=
| request_not_created (err : goerror) :
    NewRequestWithContext env sent "GET" (url ++ "/") = inl err ->
    call_failure env sent url err
| request_not_issued (req : OutRequest) (err : goerror) :
    NewRequestWithContext env sent "GET" (url ++ "/") = inr req ->
    Do env req = inl err ->
    call_failure env sent url err
| body_not_read (req : OutRequest) (resp : Response) (err : goerror) :
    NewRequestWithContext env sent "GET" (url ++ "/") = inr req ->
    Do env req = inr resp ->
    Body resp = inl err ->
    call_failure env sent url err
| body_not_decoded (req : OutRequest) (resp : Response) (body : string)
    (err : goerror) :
    NewRequestWithContext env sent "GET" (url ++ "/") = inr req ->
    Do env req = inr resp ->
    Body resp = inr body ->
    Unmarshal body = inl err ->
    call_failure env sent url err.

(** The bodies [Unmarshal] stores into the map: null, or an object
    all of whose numbers, under whichever key or index, are in the
    float64 range. *)
Definition decodes_to_map (body : string) : bool :=
  match parse body with
  | Some JNull => true
  | Some (JObject members) => numbers_fit (JObject members)
  | _ => false
  end.

(** Failure decided on the validity of the body alone: creation,
    transport or read error, or a body that is not a JSON text. *)
Definition fails_on_invalid_json_only (env : NodeEnv) (sent : rctx)
  (url : string) : bool :=
  match NewRequestWithContext env sent "GET" (url ++ "/") with
  | inl _ => true
  | inr req =>
      match Do env req with
      | inl _ => true
      | inr resp =>
          match Body resp with
          | inl _ => true
          | inr body => negb (Valid body)
          end
      end
  end.

Definition call_failed (r : goerror + gomap) : bool :=
  match r with
  | inl _ => true
  | inr _ => false
  end.

(** The same surroundings, with every status code replaced through [f]. *)
Definition with_status (f : Z -> Z) (env : NodeEnv) : NodeEnv :=
  {| Getenv := Getenv env;
     url_error := url_error env;
     Do := fun req =>
             match Do env req with
             | inl err => inl err
             | inr resp => inr {| StatusCode := f (StatusCode resp);
                                  Body := Body resp |}
             end |}.

(** Every event of [l] is an attribute or error recorded on span [id]. *)
Definition records_only_on (id : nat) (l : list span_event) : Prop :=
  Forall (fun e => recording_on id e = true) l.

(** *** The chain *)

Definition GET (path : string) (ctx : rctx) : Request :=
  {| Method := "GET"; Path := path; Context := ctx |}.

(** The request a node receives for an outbound call to its root. *)
Definition incoming (out : OutRequest) : Request :=
  {| Method := out_method out; Path := "/"; Context := out_ctx out |}.

(** Surroundings in which every outbound request is created and
    answered by [peer]. *)
Definition reaching (getenv : string -> string) (peer : OutRequest -> Response)
  : NodeEnv :=
  {| Getenv := getenv;
     url_error := fun _ => None;
     Do := fun out => inr (peer out) |}.

Definition node_c (tC : tracer) (out : OutRequest) : Response :=
  fst (serve AppC.newHTTPHandler (incoming out) tC).

Definition node_b (getenvB : string -> string) (tB tC : tracer)
  (out : OutRequest) : Response :=
  fst (serve (AppB.newHTTPHandler (reaching getenvB (node_c tC))) (incoming out) tB).

(** Node A's surroundings when B and C are both up. *)
Definition healthy_chain (getenvA getenvB : string -> string) (tB tC : tracer)
  : NodeEnv :=
  reaching getenvA (node_b getenvB tB tC).

(** The map a response body decodes to. *)
Definition decoded (resp : Response) : option (list (string * json)) :=
  match Body resp with
  | inr body =>
      match Unmarshal body with
      | inr (Some members) => Some members
      | _ => None
      end
  | inl _ => None
  end.

Fixpoint at_path (path : list string) (v : json) : option json :=
  match path with
  | [] => Some v
  | k :: rest =>
      match v with
      | JObject members =>
          match lookup k members with
          | Some x => at_path rest x
          | None => None
          end
      | _ => None
      end
  end.

Definition field (path : list string) (resp : Response) : option json :=
  match decoded resp with
  | Some members => at_path path (JObject members)
  | None => None
  end.

(** *** Particular surroundings *)

Definition no_span : rctx := {| ctx_span := None |}.

Definition new_tracer : tracer := {| next_id := 0; recorded := [] |}.

Definition new_state : hstate := {| rw := new_response; tr := new_tracer |}.

Definition no_variables : string -> string := fun _ => EmptyString.

(** The next node answers 200 with the JSON text [body]. *)
Definition answering (code : Z) (body : string) : NodeEnv :=
  {| Getenv := no_variables;
     url_error := fun _ => None;
     Do := fun _ => inr {| StatusCode := code; Body := inr body |} |}.

(** The next node is down. *)
Definition unreachable : NodeEnv :=
  {| Getenv := no_variables;
     url_error := fun _ => None;
     Do := fun _ => inl (ErrorString "connection refused") |}.

End NodeProps.

From Stdlib Require Import Permutation.

(** ** The process: [main] *)

Module Process.
Import Otel Lifecycle.

(** How the process ends: the exit status, and the line [log.Fatalln]
    prints (without the logger's time stamp). *)
Record exit : Type := {
  exit_code : Z;
  fatal : option string
}.

(** [main] of app-a, app-b and app-c:
    [if err := run(); err != nil { log.Fatalln(err) }]. *)
Definition main (serviceName : string) (env : RunEnv) : M state exit :=
  err <- run serviceName env ;;
  match err with
  | Some e => ret {| exit_code := 1; fatal := Some (Error e ++ newline) |}
  | None => ret {| exit_code := 0; fatal := None |}
  end.

(** [main] of the root package. *)
Definition main_legacy (env : RunEnv) : M state exit :=
  err <- run_legacy env ;;
  match err with
  | Some e => ret {| exit_code := 1; fatal := Some (Error e ++ newline) |}
  | None => ret {| exit_code := 0; fatal := None |}
  end.

End Process.

(** ** More vocabulary: builds and runs *)

Module BuildProps.
Import Otel Lifecycle LifecycleProps Process.

(** The endpoint the trace exporter is constructed with. *)
Definition builder_endpoint (b : builder) : string :=
  match b with
  | UseInternal _ ep => if String.eqb ep EmptyString then "localhost:4317" else ep
  | UseLegacy => "localhost:4317"
  end.

(** The providers a build constructs before it stops, oldest first. *)
Definition providers_built (sdk : Exporters) (b : builder) : list teardown :=
  match otlptracegrpc_New sdk (builder_endpoint b) with
  | inl _ => []
  | inr t =>
      match stdoutmetric_New sdk with
      | inl _ => [t]
      | inr m =>
          match stdoutlog_New sdk with
          | inl _ => [t; m]
          | inr l => [t; m; l]
          end
      end
  end.

(** The constructors a build calls. *)
Definition pipelines_attempted (sdk : Exporters) (b : builder) : list pipeline :=
  match otlptracegrpc_New sdk (builder_endpoint b) with
  | inl _ => [Traces]
  | inr _ =>
      match stdoutmetric_New sdk with
      | inl _ => [Traces; Metrics]
      | inr _ => [Traces; Metrics; Logs]
      end
  end.

(** The error of the first constructor that fails, if one does. *)
Definition construction_error (sdk : Exporters) (b : builder) : error :=
  match otlptracegrpc_New sdk (builder_endpoint b) with
  | inl e => Some e
  | inr _ =>
      match stdoutmetric_New sdk with
      | inl e => Some e
      | inr _ =>
          match stdoutlog_New sdk with
          | inl e => Some e
          | inr _ => None
          end
      end
  end.

(** The providers the OpenTelemetry globals point to. *)
Definition installed (g : Globals) : list (option nat) :=
  [tracerProvider g; meterProvider g; loggerProvider g].

Definition is_listening (e : event) : bool :=
  match e with
  | EvListenAndServe => true
  | EvServerShutdown => true
  | _ => false
  end.

(** The events of a stop, before the deferred calls run. *)
Definition stop_events (c : stop_cause) : list event :=
  match c with
  | ListenerReturned _ => []
  | Interrupted _ => [EvStop; EvServerShutdown]
  end.

(** The endpoint [run] passes to the builder. *)
Definition run_endpoint (env : RunEnv) : string :=
  if String.eqb (OTEL_EXPORTER_OTLP_ENDPOINT env) EmptyString
  then "localhost:4317" else OTEL_EXPORTER_OTLP_ENDPOINT env.

Definition with_endpoint (ep : string) (env : RunEnv) : RunEnv :=
  {| run_sdk := run_sdk env;
     OTEL_EXPORTER_OTLP_ENDPOINT := ep;
     signalled_during_setup := signalled_during_setup env;
     cause := cause env |}.

(** The four programs: a node with its service name, or the root
    package. *)
Inductive program : Type :=
| App (serviceName : string)
| Root.

Definition run_of (p : program) : RunEnv -> M state error :=
  match p with
  | App serviceName => run serviceName
  | Root => run_legacy
  end.

Definition main_of (p : program) : RunEnv -> M state exit :=
  match p with
  | App serviceName => main serviceName
  | Root => main_legacy
  end.

(** The build a program starts with. *)
Definition builder_of (p : program) (env : RunEnv) : builder :=
  match p with
  | App serviceName => UseInternal serviceName (run_endpoint env)
  | Root => UseLegacy
  end.

(** Exporters that answer alike wherever the endpoint is not empty. *)
Definition same_off_empty_endpoint (sdk sdk' : Exporters) : Prop :=
  (forall ep, ep <> EmptyString -> otlptracegrpc_New sdk ep = otlptracegrpc_New sdk' ep)
  /\ stdoutmetric_New sdk = stdoutmetric_New sdk'
  /\ stdoutlog_New sdk = stdoutlog_New sdk'.

(** Exporters whose trace exporter refuses the empty endpoint. *)
Definition strict_sdk : Exporters :=
  {| otlptracegrpc_New := fun ep =>
       if String.eqb ep EmptyString then inl (ErrorString "no endpoint")
       else inr (provider 1 None);
     stdoutmetric_New := inr (provider 2 None);
     stdoutlog_New := inr (provider 3 None) |}.

(** The text of the error a list of answers joins to. *)
Definition joined_text (ms : list string) : option string :=
  match ms with
  | [] => None
  | _ => Some (String.concat newline ms)
  end.

(** The non-nil errors of a list, as texts. *)
Definition messages (errs : list error) : list string :=
  map Error (non_nil errs).

End BuildProps.

(** ** More vocabulary: requests in sequence *)

Module RequestProps.
Import Http Trace Json Node NodeProps.

(** The paths the mux hands to the root handler: in canonical form,
    and other than /health. *)
Definition reaches_root (path : string) : bool :=
  String.eqb (cleanPath path) path && negb (String.eqb path "/health").

(** [handleRoot] of each service. *)
Definition handleRoot_of (s : service) (env : NodeEnv) : Request -> M hstate unit :=
  match s with
  | ServiceA => AppA.handleRoot env
  | ServiceB => AppB.handleRoot env
  | ServiceC => AppC.handleRoot
  end.

(** The one request [callNext] makes for [url] when its span is [id]. *)
Definition outbound (url : string) (id : nat) : OutRequest :=
  {| out_method := "GET";
     out_url := url ++ "/";
     out_ctx := {| ctx_span := Some id |} |}.

(** The body a forwarding node writes for a decoded [result]. *)
Definition wrapped (cfg : Forwarder) (result : gomap) : string :=
  Encode (JObject [("service", JString (serviceName cfg));
                   ("message", JString (message cfg));
                   ("result", of_gomap result)]).

(** Node B seen from node A, with B's own surroundings [envB]. *)
Definition node_b_in (envB : NodeEnv) (tB : tracer) (out : OutRequest) : Response :=
  fst (serve (AppB.newHTTPHandler envB) (incoming out) tB).

End RequestProps.

(** ** More vocabulary: JSON values written and read back *)

Module JsonProps.
Import Json.

(** A JSON text written with ['] for its double quotes. *)
Fixpoint quoted (s : string) : string :=
  match s with
  | EmptyString => EmptyString
  | String c rest => String (if Ascii.eqb c "'" then quote else c) (quoted rest)
  end.

(** Insertion by key, whatever the members hold. *)
Fixpoint insert_by_key {A} (kv : string * A) (l : list (string * A))
  : list (string * A) :=
  match l with
  | [] => [kv]
  | h :: t =>
      if String.leb (fst kv) (fst h) then kv :: l else h :: insert_by_key kv t
  end.

Definition sort_by_key {A} (l : list (string * A)) : list (string * A) :=
  fold_right insert_by_key [] l.

(** A value with the members of every object in key order: what a
    reader gets back from the text of the value. *)
Fixpoint canonical (v : json) : json :=
  match v with
  | JArray items => JArray (map canonical items)
  | JObject members =>
      JObject (sort_by_key
                 (map (fun kv => let '(k, x) := kv in (k, canonical x)) members))
  | other => other
  end.

Definition keys {A} (members : list (string * A)) : list string := map fst members.

Fixpoint no_repeat (l : list string) : bool :=
  match l with
  | [] => true
  | k :: rest => negb (existsb (String.eqb k) rest) && no_repeat rest
  end.

Definition ascii_only (s : string) : bool :=
  forallb (fun c => (N_of_ascii c <? 128)%N) (list_ascii_of_string s).

(** The values of the exchange between the nodes: no numbers, texts in
    ASCII, and no key twice in an object. *)
Fixpoint plain (v : json) : bool :=
  match v with
  | JNull => true
  | JBool _ => true
  | JNumber _ _ _ _ => false
  | JString s => ascii_only s
  | JArray items => forallb plain items
  | JObject members =>
      no_repeat (keys members)
      && forallb (fun kv => let '(k, x) := kv in ascii_only k && plain x) members
  end.

(** How many arrays and objects lie around the innermost value. *)
Fixpoint height (v : json) : N :=
  match v with
  | JArray items => 1 + fold_right N.max 0%N (map height items)
  | JObject members =>
      1 + fold_right N.max 0%N (map (fun kv => let '(_, x) := kv in height x) members)
  | _ => 0
  end.

Definition on_value {A B} (f : A -> B) (kv : string * A) : string * B :=
  let '(k, x) := kv in (k, f x).

(** The text of one member of an object. *)
Definition member_text (kv : string * json) : string :=
  encode_member (on_value encode kv).

(** [v], written by [encode] in front of any [rest], is read back by
    [parse_value] as [canonical v], leaving [rest]; two units of fuel
    per character are enough. *)
Definition reads_back (v : json) : Prop :=
  plain v = true ->
  forall (fuel : nat) (depth : N) (rest : string),
    (depth + height v <= maxNestingDepth)%N ->
    2 * String.length (encode v) <= fuel + 1 ->
    parse_value fuel depth (encode v ++ rest) = Some (canonical v, rest).

End JsonProps.

(** * Properties *)

Open Scope list_scope.

(** ** The JSON reader *)

Module JsonProofs.
Import Json.

#[local] Abbreviation len := String.length.

Lemma skip_space_length (s : string) : (len (skip_space s) <= len s)%nat.
Proof.
  induction s as [|c s IH]; cbn; [lia|].
  destruct (is_space c); cbn; lia.
Qed.

Lemma scan_string_length_bounded (n : nat) :
  forall s us out,
    (len s <= n)%nat -> scan_string s = Some (us, out) -> (len out < len s)%nat.
Proof.
  induction n as [|n IH]; intros s us out Hn H.
  - destruct s; [discriminate | cbn in Hn; lia].
  - destruct s as [|c rest]; [discriminate|]. cbn in Hn. cbn [scan_string] in H.
    destruct (Ascii.eqb c quote).
    { injection H as _ <-. cbn; lia. }
    destruct (Ascii.eqb c backslash).
    + destruct rest as [|e rest1]; [discriminate|]. cbn in Hn.
      destruct (simple_escape e).
      * destruct (scan_string rest1) as [[us' out']|] eqn:E; [|discriminate].
        injection H as _ <-. apply IH in E; cbn; lia.
      * destruct (Ascii.eqb e "u"); [|discriminate].
        destruct rest1 as [|h1 [|h2 [|h3 [|h4 rest2]]]]; try discriminate.
        destruct (hex4 h1 h2 h3 h4); [|discriminate].
        destruct (scan_string rest2) as [[us' out']|] eqn:E; [|discriminate].
        injection H as _ <-. cbn in Hn. apply IH in E; cbn; lia.
    + destruct (N_of_ascii c <? 32)%N; [discriminate|].
      destruct (scan_string rest) as [[us' out']|] eqn:E; [|discriminate].
      injection H as _ <-. apply IH in E; cbn; lia.
Qed.

Lemma parse_string_length (s str out : string) :
  parse_string s = Some (str, out) -> (len out < len s)%nat.
Proof.
  unfold parse_string. destruct (scan_string s) as [[us o]|] eqn:E; [|discriminate].
  intros [= _ <-]. now apply (scan_string_length_bounded (len s)) in E.
Qed.

Lemma scan_digits_length (s : string) :
  forall acc count m count' out,
    scan_digits s acc count = (m, count', out) ->
    (len out + count' = len s + count)%nat.
Proof.
  induction s as [|c s IH]; intros acc count m count' out H; cbn in H.
  - injection H as _ <- <-. reflexivity.
  - destruct (digit_value c).
    + apply IH in H. cbn. lia.
    + injection H as _ <- <-. reflexivity.
Qed.

Lemma tail_length (s : string) : (len (tail s) <= len s)%nat.
Proof. destruct s; cbn; lia. Qed.

Lemma parse_number_length (s : string) (v : json) (out : string) :
  parse_number s = Some (v, out) -> (len out < len s)%nat.
Proof.
  unfold parse_number.
  set (s0 := if starts_with "-" s then tail s else s).
  assert (Hs0 : (len s0 <= len s)%nat).
  { subst s0. destruct (starts_with "-" s); [apply tail_length | lia]. }
  destruct (scan_digits s0 0%N 0%nat) as [[int n_int] s1] eqn:E1.
  apply scan_digits_length in E1.
  destruct (n_int =? 0)%nat eqn:Hn; [discriminate|].
  apply Nat.eqb_neq in Hn.
  destruct (starts_with "0" s0 && negb (n_int =? 1)%nat); [discriminate|].
  assert (Hfrac : forall m n_frac s2,
             (if starts_with "." s1
              then let '(m, n_frac, s2) := scan_digits (tail s1) int 0%nat in
                   if (n_frac =? 0)%nat then None else Some (m, n_frac, s2)
              else Some (int, 0%nat, s1)) = Some (m, n_frac, s2) ->
             (len s2 <= len s1)%nat).
  { intros m n_frac s2. destruct (starts_with "." s1).
    - destruct (scan_digits (tail s1) int 0%nat) as [[m' n'] s2'] eqn:E2.
      apply scan_digits_length in E2. pose proof (tail_length s1).
      destruct (n' =? 0)%nat; [discriminate|]. intros [= _ _ <-]. lia.
    - intros [= _ _ <-]. lia. }
  destruct (if starts_with "." s1 then _ else _) as [[[m n_frac] s2]|] eqn:E2;
    [|discriminate].
  pose proof (Hfrac _ _ _ eq_refl) as Hlen. clear Hfrac E2.
  destruct (starts_with "e" s2 || starts_with "E" s2).
  - set (s3 := tail s2).
    set (s4 := if starts_with "-" s3 || starts_with "+" s3 then tail s3 else s3).
    assert (Hs4 : (len s4 <= len s2)%nat).
    { subst s4 s3. pose proof (tail_length s2). pose proof (tail_length (tail s2)).
      destruct (_ || _); lia. }
    destruct (scan_digits s4 0%N 0%nat) as [[e n_exp] s5] eqn:E5.
    apply scan_digits_length in E5.
    destruct (n_exp =? 0)%nat; [discriminate|]. intros [= _ <-]. lia.
  - intros [= _ <-]. lia.
Qed.

Lemma strip_prefix_length (p : string) :
  forall s out, strip_prefix p s = Some out -> (len out + len p = len s)%nat.
Proof.
  induction p as [|a p IH]; intros s out H; cbn in H.
  - injection H as <-. cbn. lia.
  - destruct s as [|b s]; [discriminate|].
    destruct (Ascii.eqb a b); [|discriminate]. apply IH in H. cbn. lia.
Qed.

Lemma literal_length (word : string) (v v' : json) (s out : string) :
  word <> EmptyString ->
  literal word v s = Some (v', out) -> (len out < len s)%nat.
Proof.
  unfold literal. intros Hw.
  destruct (strip_prefix word s) eqn:E; [|discriminate].
  intros [= _ <-]. apply strip_prefix_length in E.
  destruct word; [contradiction | cbn in E; lia].
Qed.


Lemma starts_with_tail (c : ascii) (s : string) :
  starts_with c s = true -> S (len (tail s)) = len s.
Proof. destruct s; [discriminate | reflexivity]. Qed.

(** Every parser consumes at least one character. *)
Lemma parse_consumes (f : nat) :
  (forall d s v out, parse_value f d s = Some (v, out) -> (len out < len s)%nat)
  /\ (forall d s vs out, parse_elements f d s = Some (vs, out) ->
        (len out + 2 <= len s)%nat)
  /\ (forall d s ms out, parse_members f d s = Some (ms, out) ->
        (len out + 2 <= len s)%nat).
Proof.
  induction f as [|f (IHv & IHe & IHm)]; [repeat split; discriminate|].
  repeat split.
  - intros d s v out H. cbn [parse_value] in H.
    pose proof (skip_space_length s) as Hs.
    destruct (skip_space s) as [|c rest]; [discriminate|]. cbn [String.length] in Hs.
    destruct (Ascii.eqb c quote).
    { destruct (parse_string rest) as [[str o]|] eqn:E; [|discriminate].
      injection H as _ <-. apply parse_string_length in E. lia. }
    pose proof (skip_space_length rest) as Hr.
    destruct (Ascii.eqb c "[").
    { destruct (maxNestingDepth <? d + 1)%N; [discriminate|].
      destruct (starts_with "]" (skip_space rest)) eqn:Hb.
      - injection H as _ <-. apply starts_with_tail in Hb. lia.
      - destruct (parse_elements f (d + 1) rest) as [[items o]|] eqn:E; [|discriminate].
        injection H as _ <-. apply IHe in E. lia. }
    destruct (Ascii.eqb c "{").
    { destruct (maxNestingDepth <? d + 1)%N; [discriminate|].
      destruct (starts_with "}" (skip_space rest)) eqn:Hb.
      - injection H as _ <-. apply starts_with_tail in Hb. lia.
      - destruct (parse_members f (d + 1) rest) as [[ms o]|] eqn:E; [|discriminate].
        injection H as _ <-. apply IHm in E. lia. }
    destruct (Ascii.eqb c "t").
    { apply literal_length in H; [cbn [String.length] in H; lia | discriminate]. }
    destruct (Ascii.eqb c "f").
    { apply literal_length in H; [cbn [String.length] in H; lia | discriminate]. }
    destruct (Ascii.eqb c "n").
    { apply literal_length in H; [cbn [String.length] in H; lia | discriminate]. }
    apply parse_number_length in H. cbn [String.length] in H. lia.
  - intros d s vs out H. cbn [parse_elements] in H.
    destruct (parse_value f d s) as [[v o]|] eqn:E; [|discriminate].
    apply IHv in E. pose proof (skip_space_length o) as Ho.
    destruct (skip_space o) as [|c rest]; [discriminate|]. cbn [String.length] in Ho.
    destruct (Ascii.eqb c ",").
    + destruct (parse_elements f d rest) as [[vs' o']|] eqn:E'; [|discriminate].
      injection H as _ <-. apply IHe in E'. lia.
    + destruct (Ascii.eqb c "]"); [|discriminate]. injection H as _ <-. lia.
  - intros d s ms out H. cbn [parse_members] in H.
    pose proof (skip_space_length s) as Hs.
    destruct (skip_space s) as [|q rest]; [discriminate|]. cbn [String.length] in Hs.
    destruct (Ascii.eqb q quote); [|discriminate].
    destruct (parse_string rest) as [[k o]|] eqn:Ek; [|discriminate].
    apply parse_string_length in Ek. pose proof (skip_space_length o) as Ho.
    destruct (skip_space o) as [|colon rest1]; [discriminate|]. cbn [String.length] in Ho.
    destruct (Ascii.eqb colon ":"); [|discriminate].
    destruct (parse_value f d rest1) as [[v o1]|] eqn:Ev; [|discriminate].
    apply IHv in Ev. pose proof (skip_space_length o1) as Ho1.
    destruct (skip_space o1) as [|c rest2]; [discriminate|]. cbn [String.length] in Ho1.
    destruct (Ascii.eqb c ",").
    + destruct (parse_members f d rest2) as [[ms' o2]|] eqn:Em; [|discriminate].
      injection H as _ <-. apply IHm in Em. lia.
    + destruct (Ascii.eqb c "}"); [|discriminate]. injection H as _ <-. lia.
Qed.

(** A successful parse succeeds again, with the same result, on any
    fuel of at least twice the characters it consumed. *)
Lemma parse_fuel (f : nat) :
  (forall d s v out, parse_value f d s = Some (v, out) ->
     forall f', (2 * len s <= f' + 2 * len out + 1)%nat ->
                parse_value f' d s = Some (v, out))
  /\ (forall d s vs out, parse_elements f d s = Some (vs, out) ->
     forall f', (2 * len s <= f' + 2 * len out + 2)%nat ->
                parse_elements f' d s = Some (vs, out))
  /\ (forall d s ms out, parse_members f d s = Some (ms, out) ->
     forall f', (2 * len s <= f' + 2 * len out + 2)%nat ->
                parse_members f' d s = Some (ms, out)).
Proof.
  induction f as [|f (IHv & IHe & IHm)]; [repeat split; discriminate|].
  destruct (parse_consumes f) as (Cv & Ce & Cm).
  destruct (parse_consumes (S f)) as (Cv' & Ce' & Cm').
  repeat split.
  - intros d s v out H f' Hf'. pose proof (Cv' _ _ _ _ H) as Hlen.
    destruct f' as [|g]; [lia|]. cbn [parse_value] in H |- *.
    pose proof (skip_space_length s) as Hs.
    destruct (skip_space s) as [|c rest]; [discriminate|]. cbn [String.length] in Hs.
    destruct (Ascii.eqb c quote); [exact H|].
    pose proof (skip_space_length rest) as Hr.
    destruct (Ascii.eqb c "[").
    { destruct (maxNestingDepth <? d + 1)%N; [discriminate|].
      destruct (starts_with "]" (skip_space rest)) eqn:Hb; [exact H|].
      destruct (parse_elements f (d + 1) rest) as [[items o]|] eqn:E; [|discriminate].
      injection H as <- <-.
      rewrite (IHe _ _ _ _ E g); [reflexivity | lia]. }
    destruct (Ascii.eqb c "{").
    { destruct (maxNestingDepth <? d + 1)%N; [discriminate|].
      destruct (starts_with "}" (skip_space rest)) eqn:Hb; [exact H|].
      destruct (parse_members f (d + 1) rest) as [[ms o]|] eqn:E; [|discriminate].
      injection H as <- <-.
      rewrite (IHm _ _ _ _ E g); [reflexivity | lia]. }
    exact H.
  - intros d s vs out H f' Hf'. pose proof (Ce' _ _ _ _ H) as Hlen.
    destruct f' as [|g]; [lia|]. cbn [parse_elements] in H |- *.
    destruct (parse_value f d s) as [[v o]|] eqn:E; [|discriminate].
    pose proof (Cv _ _ _ _ E) as Hv. pose proof (skip_space_length o) as Ho.
    destruct (skip_space o) as [|c rest] eqn:Hsp; [discriminate|].
    cbn [String.length] in Ho.
    assert (Hout : (len out <= len rest)%nat).
    { destruct (Ascii.eqb c ",").
      - destruct (parse_elements f d rest) as [[vs' o']|] eqn:E'; [|discriminate].
        injection H as _ <-. apply Ce in E'. lia.
      - destruct (Ascii.eqb c "]"); [|discriminate]. injection H as _ <-. lia. }
    rewrite (IHv _ _ _ _ E g) by lia. rewrite Hsp.
    destruct (Ascii.eqb c ","); [|exact H].
    destruct (parse_elements f d rest) as [[vs' o']|] eqn:E'; [|discriminate].
    injection H as <- <-.
    rewrite (IHe _ _ _ _ E' g); [reflexivity | lia].
  - intros d s ms out H f' Hf'. pose proof (Cm' _ _ _ _ H) as Hlen.
    destruct f' as [|g]; [lia|]. cbn [parse_members] in H |- *.
    pose proof (skip_space_length s) as Hs.
    destruct (skip_space s) as [|q rest]; [discriminate|]. cbn [String.length] in Hs.
    destruct (Ascii.eqb q quote); [|discriminate].
    destruct (parse_string rest) as [[k o]|] eqn:Ek; [|discriminate].
    apply parse_string_length in Ek. pose proof (skip_space_length o) as Ho.
    destruct (skip_space o) as [|colon rest1]; [discriminate|]. cbn [String.length] in Ho.
    destruct (Ascii.eqb colon ":"); [|discriminate].
    destruct (parse_value f d rest1) as [[v o1]|] eqn:Ev; [|discriminate].
    pose proof (Cv _ _ _ _ Ev) as Hv. pose proof (skip_space_length o1) as Ho1.
    destruct (skip_space o1) as [|c rest2] eqn:Hsp; [discriminate|].
    cbn [String.length] in Ho1.
    assert (Hout : (len out <= len rest2)%nat).
    { destruct (Ascii.eqb c ",").
      - destruct (parse_members f d rest2) as [[ms' o2]|] eqn:Em; [|discriminate].
        injection H as _ <-. apply Cm in Em. lia.
      - destruct (Ascii.eqb c "}"); [|discriminate]. injection H as _ <-. lia. }
    rewrite (IHv _ _ _ _ Ev g) by lia. rewrite Hsp.
    destruct (Ascii.eqb c ","); [|exact H].
    destruct (parse_members f d rest2) as [[ms' o2]|] eqn:Em; [|discriminate].
    injection H as <- <-.
    rewrite (IHm _ _ _ _ Em g); [reflexivity | lia].
Qed.

(** The fuel [parse] gives is enough: a text that parses with some
    fuel parses, to the same value, with [fuel_for]. *)
Theorem fuel_for_is_enough (f : nat) (data : string) (v : json) (out : string) :
  parse_value f 0 data = Some (v, out) ->
  parse_value (fuel_for data) 0 data = Some (v, out).
Proof.
  intros H. destruct (parse_fuel f) as (Hv & _ & _).
  apply (Hv _ _ _ _ H). unfold fuel_for. lia.
Qed.


(** [parse] does not depend on the fuel it picks. *)
Lemma parse_any_fuel (f : nat) (data : string) (v : json) (out : string) :
  parse_value f 0 data = Some (v, out) ->
  skip_space out = EmptyString ->
  parse data = Some v.
Proof.
  intros H Hout. unfold parse. now rewrite (fuel_for_is_enough f data v out H), Hout.
Qed.

(** Induction on a value, with the hypothesis for every item of an
    array and every member of an object. *)
Lemma json_induction (P : json -> Prop) :
  P JNull ->
  (forall b, P (JBool b)) ->
  (forall neg m e text, P (JNumber neg m e text)) ->
  (forall s, P (JString s)) ->
  (forall items, Forall P items -> P (JArray items)) ->
  (forall members, Forall (fun kv => P (snd kv)) members -> P (JObject members)) ->
  forall v, P v.
Proof.
  intros Hnull Hbool Hnum Hstr Harr Hobj.
  fix IH 1. intros [| b | neg m e text | s | items | members].
  - exact Hnull.
  - apply Hbool.
  - apply Hnum.
  - apply Hstr.
  - apply Harr. induction items as [|x items IHitems]; constructor; [apply IH | exact IHitems].
  - apply Hobj. induction members as [|[k x] members IHm]; constructor;
      [apply IH | exact IHm].
Qed.

Lemma first_of_none {A} (f : A -> option string) (l : list A) :
  first_of f l = None <-> forall x, In x l -> f x = None.
Proof.
  induction l as [|y l IH]; cbn [first_of].
  - split; [intros _ x [] | reflexivity].
  - destruct (f y) as [found|] eqn:E.
    + split; [discriminate|]. intros H. rewrite <- E. apply H. now left.
    + rewrite IH. split.
      * intros H x [<- | Hin]; [exact E | now apply H].
      * intros H x Hin. apply H. now right.
Qed.

(** No number is out of range exactly when every number fits. *)
Lemma out_of_range_none (v : json) : out_of_range v = None <-> numbers_fit v = true.
Proof.
  induction v as [| b | neg m e text | s | items IH | members IH] using json_induction;
    cbn [out_of_range numbers_fit]; try (split; reflexivity).
  - destruct (fits_float64 m e); split; (reflexivity || discriminate).
  - rewrite first_of_none, forallb_forall. rewrite Forall_forall in IH.
    split; intros H x Hx; apply (IH x Hx), H, Hx.
  - rewrite first_of_none, forallb_forall. rewrite Forall_forall in IH.
    split; intros H [k x] Hx; apply (IH (k, x) Hx), (H (k, x) Hx).
Qed.

Lemma out_of_range_some (v : json) :
  (exists text, out_of_range v = Some text) <-> numbers_fit v = false.
Proof.
  pose proof (out_of_range_none v) as H.
  destruct (out_of_range v) as [text|].
  - destruct (numbers_fit v).
    + destruct H as [_ H]. discriminate (H eq_refl).
    + split; [reflexivity | intros _; now eexists].
  - destruct H as [H _]. rewrite (H eq_refl).
    split; [intros [text Ht]; discriminate | discriminate].
Qed.

(** What [Unmarshal] accepts: null, which leaves the map nil, or an
    object all of whose numbers fit, stored with one member per key. *)
Lemma Unmarshal_accepts (data : string) (m : gomap) :
  Unmarshal data = inr m <->
  (parse data = Some JNull /\ m = None)
  \/ (exists members, parse data = Some (JObject members)
                      /\ numbers_fit (JObject members) = true
                      /\ m = Some (stored_members members)).
Proof.
  unfold Unmarshal.
  destruct (parse data) as [[| b | neg man e text | s | items | members]|];
    try (split; [discriminate | intros [[H _] | (ms & H & _)]; discriminate]).
  - split.
    + intros [= <-]. left. split; reflexivity.
    + intros [[_ ->] | (ms & H & _)]; [reflexivity | discriminate].
  - pose proof (out_of_range_none (JObject members)) as Hfit.
    destruct (out_of_range (JObject members)) as [text|]; split.
    + discriminate.
    + intros [[H _] | (ms & [= <-] & Hfit' & _)]; [discriminate|].
      apply Hfit in Hfit'. discriminate.
    + intros [= <-]. right. exists members. repeat split. now apply Hfit.
    + intros [[H _] | (ms & [= <-] & _ & ->)]; [discriminate | reflexivity].
Qed.

(** What [Unmarshal] rejects: every text but null and the objects all
    of whose numbers fit. *)
Lemma Unmarshal_rejects (data : string) :
  (exists err, Unmarshal data = inl err) <->
  match parse data with
  | Some JNull => False
  | Some (JObject members) => numbers_fit (JObject members) = false
  | _ => True
  end.
Proof.
  unfold Unmarshal.
  destruct (parse data) as [[| b | neg man e text | s | items | members]|];
    try (split; [trivial | intros _; eexists; reflexivity]).
  - split; [intros [err H]; discriminate | contradiction].
  - rewrite <- out_of_range_some.
    destruct (out_of_range (JObject members)) as [text|]; split.
    + intros _. now eexists.
    + intros _. now eexists.
    + intros [err H]; discriminate.
    + intros [text H]; discriminate.
Qed.

Example parse_empty_array : parse "[]" = Some (JArray []).
Proof. reflexivity. Qed.

Example parse_rejects_trailing_comma : parse "[1,]" = None.
Proof. reflexivity. Qed.

Example parse_rejects_leading_zero : parse "01" = None.
Proof. reflexivity. Qed.

Example parse_number_exactly :
  parse " -2.50e3 " = Some (JNumber true 250 1 "-2.50e3").
Proof. reflexivity. Qed.

Example float64_boundary :
  option_map numbers_fit (parse "1.7976931348623158e308") = Some true
  /\ option_map numbers_fit (parse "1.7976931348623159e308") = Some false.
Proof. split; vm_compute; reflexivity. Qed.

Example Unmarshal_null : Unmarshal "null" = inr None.
Proof. reflexivity. Qed.

Example Unmarshal_string_fails :
  Unmarshal (encode (JString "ok")) = inl (UnmarshalTypeError "string" map_type).
Proof. reflexivity. Qed.

Example encode_then_parse :
  parse (Encode (JObject [("service", JString "app<c>");
                          ("message", JString "a\b");
                          ("items", JArray [JNull; JBool true;
                                            JNumber false 15 (-1) "1.5"])]))
  = Some (JObject [("items", JArray [JNull; JBool true;
                                     JNumber false 15 (-1) "15e-1"]);
                   ("message", JString "a\b");
                   ("service", JString "app<c>")]).
Proof. vm_compute. reflexivity. Qed.

(** A repeated key: every member is read and converted, the last one
    is the one the map keeps. *)
Example repeated_key_keeps_the_last :
  parse (JsonProps.quoted "{'a':1,'b':[],'a':{'c':true,'c':null}}")
  = Some (JObject [("a", JNumber false 1 0 "1"); ("b", JArray []);
                   ("a", JObject [("c", JBool true); ("c", JNull)])])
  /\ Unmarshal (JsonProps.quoted "{'a':1,'b':[],'a':{'c':true,'c':null}}")
     = inr (Some [("b", JArray []); ("a", JObject [("c", JNull)])]).
Proof. split; vm_compute; reflexivity. Qed.

(** A number out of range fails the call also under a key that a
    later member overwrites; the error quotes its literal. *)
Example overwritten_number_is_still_converted :
  Unmarshal (JsonProps.quoted "{'a':1e999,'a':1}")
  = inl (UnmarshalTypeError "number 1e999" "float64")
  /\ Unmarshal (JsonProps.quoted "{'a':[{'b':-2E+400}],'c':3e999}")
     = inl (UnmarshalTypeError "number -2E+400" "float64")
  /\ Unmarshal (JsonProps.quoted "{'a':1e-999,'a':1}")
     = inr (Some [("a", JNumber false 1 0 "1")]).
Proof. repeat apply conj; vm_compute; reflexivity. Qed.

End JsonProofs.

(** ** errors.Join *)

Section JoinFacts.

Lemma Join_pair_leaves (a b : error) :
  error_leaves (Join [a; b]) = error_leaves a ++ error_leaves b.
Proof.
  destruct a as [x|], b as [y|]; cbn; rewrite ?app_nil_r; reflexivity.
Qed.

Lemma Join_pair_nil (a b : error) :
  Join [a; b] = None <-> a = None /\ b = None.
Proof.
  destruct a, b; cbn; split; intros H; try discriminate; auto;
    destruct H; discriminate.
Qed.

Lemma Join_some_left (g : goerror) (b : error) : Join [Some g; b] <> None.
Proof. destruct b; discriminate. Qed.

End JoinFacts.

(** ** Shutdown coordinator and pipeline builder *)

Module OtelProofs.
Import Otel Lifecycle LifecycleProps.

Lemma range_shutdownFuncs_eq (ctx : context) (fns : list teardown) :
  forall (err : error) (st : state),
    range_shutdownFuncs ctx fns err st =
    (joined ctx fns err,
     {| shutdownFuncs := shutdownFuncs st;
        globals := globals st;
        history := history st ++ map (teardown_event ctx) fns |}).
Proof.
  induction fns as [|fn rest IH]; intros err [fs g h]; cbn.
  - now rewrite app_nil_r.
  - rewrite IH; cbn. now rewrite <- app_assoc.
Qed.

Lemma shutdown_eq (ctx : context) (st : state) :
  shutdown ctx st =
  (joined ctx (shutdownFuncs st) None,
   {| shutdownFuncs := [];
      globals := globals st;
      history := history st ++ map (teardown_event ctx) (shutdownFuncs st) |}).
Proof.
  unfold shutdown, bind, get_shutdownFuncs.
  rewrite range_shutdownFuncs_eq. reflexivity.
Qed.

Lemma joined_leaves (ctx : context) (fns : list teardown) :
  forall err,
    error_leaves (joined ctx fns err) =
    error_leaves err ++ flat_map error_leaves (callback_results ctx fns).
Proof.
  induction fns as [|fn rest IH]; intros err; cbn.
  - now rewrite app_nil_r.
  - unfold joined in IH. rewrite IH, Join_pair_leaves, <- app_assoc. reflexivity.
Qed.

Lemma joined_nil (ctx : context) (fns : list teardown) :
  forall err,
    joined ctx fns err = None <->
    err = None /\ (forall fn, In fn fns -> td_run fn ctx = None).
Proof.
  induction fns as [|fn rest IH]; intros err; cbn.
  - split; [intros ->; split; [reflexivity | contradiction] | tauto].
  - unfold joined in IH. rewrite IH, Join_pair_nil. split.
    + intros [[-> Hfn] Hrest]. split; [reflexivity|].
      intros fn' [<- | Hin]; auto.
    + intros [-> Hall]. auto.
Qed.

Lemma shutdown_on_empty_registry (ctx : context) (st : state) :
  shutdownFuncs st = [] -> shutdown ctx st = (None, st).
Proof.
  intros Hnil. rewrite shutdown_eq, Hnil. destruct st as [fs g h]; cbn in *.
  now rewrite app_nil_r, Hnil.
Qed.

Lemma invocations_on_empty_registry (ctxs : list context) (st : state) :
  shutdownFuncs st = [] ->
  invocations ctxs st = (map (fun _ => None) ctxs, st).
Proof.
  intros Hnil. induction ctxs as [|ctx rest IH]; cbn; [reflexivity|].
  unfold bind. now rewrite (shutdown_on_empty_registry ctx st Hnil), IH.
Qed.

Lemma handleErr_eq (ctx : context) (inErr : goerror) (st : state) :
  handleErr ctx inErr st =
  (Join [Some inErr; joined ctx (shutdownFuncs st) None],
   {| shutdownFuncs := [];
      globals := globals st;
      history := history st ++ map (teardown_event ctx) (shutdownFuncs st) |}).
Proof. unfold handleErr, bind. now rewrite shutdown_eq. Qed.

(** What a build leaves behind, case by case on the constructors. *)
Ltac run_build :=
  cbn -[Join joined String.eqb];
  unfold bind, emit, ret, set_shutdownFuncs, set_globals, get_shutdownFuncs;
  cbn -[Join joined String.eqb];
  rewrite ?handleErr_eq;
  cbn -[Join joined String.eqb];
  repeat rewrite <- app_assoc;
  cbn -[Join joined String.eqb].

Lemma build_registry_after_failure (sdk : Exporters) (ctx : context)
  (b : builder) (st : state) :
  fst (build sdk ctx b st) <> None ->
  shutdownFuncs (snd (build sdk ctx b st)) = [].
Proof.
  destruct st as [fs g h].
  destruct b as [name ep|]; cbn -[Join joined String.eqb];
    unfold Internal.SetupOTelSDK, Legacy.setupOTelSDK,
      Internal.newTracerProvider, Legacy.newTracerProvider, setupFrom,
      newMeterProvider, newLoggerProvider, append_shutdownFuncs,
      SetTextMapPropagator, SetTracerProvider, SetMeterProvider,
      SetLoggerProvider;
    [destruct (otlptracegrpc_New sdk (if String.eqb ep EmptyString then _ else _))
     | destruct (otlptracegrpc_New sdk _)];
    destruct (stdoutmetric_New sdk); destruct (stdoutlog_New sdk);
    run_build; intros H; try reflexivity; now contradiction H.
Qed.

(** C1: once the aggregate shutdown function has run (called by the
    caller, or by [handleErr] during a failed build), every later
    invocation returns nil and leaves the state as it is: no callback
    is invoked again. *)
Theorem shutdown_is_idempotent :
  forall (st : state),
    shutdown_has_run st ->
    forall (ctxs : list context),
      invocations ctxs st = (map (fun _ => None) ctxs, st).
Proof.
  intros st Hrun ctxs. apply invocations_on_empty_registry.
  destruct Hrun as [ctx st0 | sdk ctx b st0 Hfail].
  - now rewrite shutdown_eq.
  - now apply build_registry_after_failure.
Qed.

Lemma shutdown_is_idempotent_witness :
  invocations [Background; NotifyContext true]
    (snd (shutdown Background two_providers))
  = ([None; None], snd (shutdown Background two_providers)).
Proof.
  apply (shutdown_is_idempotent (snd (shutdown Background two_providers))
           (run_by_caller Background two_providers)
           [Background; NotifyContext true]).
Defined.

(** C2: one invocation of the aggregate shutdown function calls every
    registered callback once, in registration order, whatever the
    earlier ones answered; the error it returns holds the non-nil
    answers in that order and nothing else, and it is nil exactly when
    every callback answered nil. *)
Theorem shutdown_invokes_every_callback_in_order :
  forall (ctx : context) (st : state),
    let fns := shutdownFuncs st in
    let err := fst (shutdown ctx st) in
    let st' := snd (shutdown ctx st) in
    history st' = history st ++ map (teardown_event ctx) fns
    /\ error_leaves err = flat_map error_leaves (callback_results ctx fns)
    /\ (err = None <-> forall fn, In fn fns -> td_run fn ctx = None).
Proof.
  intros ctx st fns err st'. subst fns err st'. rewrite shutdown_eq. cbn [fst snd history].
  split; [reflexivity|]. split.
  - now rewrite joined_leaves.
  - rewrite joined_nil. tauto.
Qed.

(** The example of the specification: E1 succeeds, E2 fails with "x". *)
Example shutdown_of_two_providers :
  fst (shutdown Background two_providers) = Some (JoinError [ErrorString "x"])
  /\ option_map Error (fst (shutdown Background two_providers)) = Some "x"
  /\ teardowns (history (snd (shutdown Background two_providers))) = [1; 2]%nat.
Proof. repeat apply conj; reflexivity. Qed.

(** The shape a failed build leaves: [pre] holds the installs and the
    constructions, then come the teardowns of what [pre] built. *)
Ltac construction_phase :=
  match goal with
  | |- exists pre, ?h ++ ?l = ?h ++ pre ++ _ /\ _ =>
      let p := eval cbv in
        (filter (fun e => match e with EvTeardown _ _ => false | _ => true end) l) in
      exists p
  end.

Ltac unfold_build :=
  unfold Internal.SetupOTelSDK, Legacy.setupOTelSDK,
    Internal.newTracerProvider, Legacy.newTracerProvider, setupFrom,
    newMeterProvider, newLoggerProvider, append_shutdownFuncs,
    SetTextMapPropagator, SetTracerProvider, SetMeterProvider,
    SetLoggerProvider.

(** C3: when a constructor fails, the build returns a non-nil error,
    and by then every pipeline it had built has been torn down, in
    build order, each once; the registry is left empty. *)
Theorem failed_build_tears_down_what_it_built :
  forall (sdk : Exporters) (ctx : context) (b : builder) (st : state),
    construction_fails sdk b = true ->
    let err := fst (build sdk ctx b st) in
    let st' := snd (build sdk ctx b st) in
    err <> None
    /\ (exists pre,
          history st' = history st ++ pre ++ map (fun id => EvTeardown id ctx) (built pre)
          /\ teardowns pre = [])
    /\ shutdownFuncs st' = [].
Proof.
  intros sdk ctx b [fs g h] Hfail err st'. subst err st'.
  unfold construction_fails in Hfail.
  destruct b as [name ep|]; cbn -[Join joined String.eqb]; unfold_build;
    [destruct (otlptracegrpc_New sdk (if String.eqb ep EmptyString then _ else _))
     | destruct (otlptracegrpc_New sdk _)];
    destruct (stdoutmetric_New sdk); destruct (stdoutlog_New sdk);
    try discriminate Hfail;
    run_build;
    (split; [apply Join_some_left |
             split; [construction_phase; split; reflexivity | reflexivity]]).
Qed.

Lemma failed_build_tears_down_what_it_built_witness :
  let sdk := sdk_without_logs None (Some (ErrorString "x")) (ErrorString "no stdout") in
  let b := UseInternal "app-a" "localhost:4317" in
  fst (build sdk Background b fresh) <> None
  /\ (exists pre,
        history (snd (build sdk Background b fresh))
          = history fresh ++ pre ++ map (fun id => EvTeardown id Background) (built pre)
        /\ teardowns pre = [])
  /\ shutdownFuncs (snd (build sdk Background b fresh)) = [].
Proof.
  exact (failed_build_tears_down_what_it_built
           (sdk_without_logs None (Some (ErrorString "x")) (ErrorString "no stdout"))
           Background (UseInternal "app-a" "localhost:4317") fresh eq_refl).
Defined.

(** C10: the build installs the composite trace-context and baggage
    propagator before it constructs anything; when a constructor
    fails the build returns an error and the propagator is still the
    installed one. *)
Theorem propagator_installed_first_and_kept_on_failure :
  forall (sdk : Exporters) (ctx : context) (b : builder) (st : state),
    construction_fails sdk b = true ->
    let err := fst (build sdk ctx b st) in
    let st' := snd (build sdk ctx b st) in
    err <> None
    /\ (exists rest,
          history st' = history st ++ EvSetTextMapPropagator newPropagator :: rest
          /\ hd_error (constructions rest) = Some Traces)
    /\ textMapPropagator (globals st')
       = Some (CompositeTextMapPropagator [TraceContext; Baggage]).
Proof.
  intros sdk ctx b [fs g h] Hfail err st'. subst err st'.
  unfold construction_fails in Hfail.
  destruct b as [name ep|]; cbn -[Join joined String.eqb]; unfold_build;
    [destruct (otlptracegrpc_New sdk (if String.eqb ep EmptyString then _ else _))
     | destruct (otlptracegrpc_New sdk _)];
    destruct (stdoutmetric_New sdk); destruct (stdoutlog_New sdk);
    try discriminate Hfail;
    run_build;
    (split; [apply Join_some_left |
             split; [eexists; split; reflexivity | reflexivity]]).
Qed.

Lemma propagator_installed_first_and_kept_on_failure_witness :
  let sdk := sdk_without_logs None None (ErrorString "no stdout") in
  fst (build sdk Background UseLegacy fresh) <> None
  /\ (exists rest,
        history (snd (build sdk Background UseLegacy fresh))
          = history fresh ++ EvSetTextMapPropagator newPropagator :: rest
        /\ hd_error (constructions rest) = Some Traces)
  /\ textMapPropagator (globals (snd (build sdk Background UseLegacy fresh)))
     = Some (CompositeTextMapPropagator [TraceContext; Baggage]).
Proof.
  exact (propagator_installed_first_and_kept_on_failure
           (sdk_without_logs None None (ErrorString "no stdout"))
           Background UseLegacy fresh eq_refl).
Defined.

(** A successful build registers the three providers and returns nil. *)
Lemma build_success (sdk : Exporters) (ctx : context) (b : builder) (st : state) :
  construction_fails sdk b = false ->
  fst (build sdk ctx b st) = None
  /\ List.length (shutdownFuncs (snd (build sdk ctx b st))) = 3%nat.
Proof.
  destruct st as [fs g h]. unfold construction_fails.
  destruct b as [name ep|]; cbn -[Join joined String.eqb]; unfold_build;
    [destruct (otlptracegrpc_New sdk (if String.eqb ep EmptyString then _ else _))
     | destruct (otlptracegrpc_New sdk _)];
    destruct (stdoutmetric_New sdk); destruct (stdoutlog_New sdk);
    intros Hok; try discriminate Hok; run_build; split; reflexivity.
Qed.

(** Once listening, [run] returns the listener or drain error alone,
    whatever the teardown answered. *)
Lemma serve_until_stopped_result (env : RunEnv) (st : state) :
  fst (serve_until_stopped env st) = stop_error env.
Proof.
  unfold serve_until_stopped, stop_error, return_unnamed, deferred_otelShutdown, bind, emit.
  destruct (cause env); cbn -[shutdown Join]; rewrite shutdown_eq; reflexivity.
Qed.

(** A run that reaches the listening state returns the listener or
    drain error and nothing of the teardown. *)
Lemma run_returns_stop_error_alone (name : string) (env : RunEnv) (st : state) :
  construction_fails (run_sdk env)
    (UseInternal name
       (if String.eqb (OTEL_EXPORTER_OTLP_ENDPOINT env) EmptyString
        then "localhost:4317" else OTEL_EXPORTER_OTLP_ENDPOINT env)) = false ->
  fst (run name env st) = stop_error env.
Proof.
  intros Hok. unfold run, bind.
  pose proof (build_success (run_sdk env)
                (NotifyContext (signalled_during_setup env)) _ st Hok) as [Hnil _].
  cbn [build] in Hnil.
  destruct (Internal.SetupOTelSDK _ _ _ _ st) as [err st1]. cbn [fst] in Hnil.
  subst err. apply serve_until_stopped_result.
Qed.

(** C4: on the run that is interrupted and drains cleanly while the
    trace provider fails to shut down with "x", the three teardowns are
    invoked by the deferred closure, yet [run] returns nil; with a named
    result the same steps return the teardown error. *)
Theorem run_discards_teardown_error :
  let env := interrupted_with_failing_teardown in
  fst (run "app-a" env fresh) = None
  /\ teardowns (history (snd (run "app-a" env fresh))) = [1; 2; 3]%nat
  /\ error_leaves (fst (run_named "app-a" env fresh)) = [ErrorString "x"]
  /\ option_map Error (fst (run_named "app-a" env fresh)) = Some "x"
  /\ snd (run_named "app-a" env fresh) = snd (run "app-a" env fresh).
Proof. cbv zeta. repeat apply conj; vm_compute; reflexivity. Qed.

End OtelProofs.

(** ** Requests *)

Module NodeProofs.
Import Http Trace Json Node NodeProps.

Ltac run_handler :=
  unfold bind, ret, defer, Start, SetAttributes, RecordError, End_,
    record_event, respond;
  cbn -[Unmarshal Encode Error String.append Error_];
  repeat rewrite <- app_assoc;
  cbn -[Unmarshal Encode Error String.append Error_].

(** [callNext] in one equation: its result is the exchange, and it
    records a child span that is ended after the last attribute. *)
Lemma callNext_eq (cfg : Forwarder) (env : NodeEnv) (ctx : rctx) (url : string)
  (st : hstate) :
  let id := next_id (tr st) in
  let x := exchange env {| ctx_span := Some id |} url in
  callNext cfg env ctx url st =
  (match x with
   | inl err => inl err
   | inr (_, result) => inr result
   end,
   {| rw := rw st;
      tr := {| next_id := S id;
               recorded :=
                 recorded (tr st)
                 ++ SpanStart id (call_name cfg) (ctx_span ctx)
                 :: SpanSetAttributes id [AttrString (url_attr cfg) url]
                 :: match x with
                    | inl _ => []
                    | inr (code, _) =>
                        [SpanSetAttributes id [AttrInt "http.status_code" code]]
                    end
                 ++ [SpanEnd id] |} |}).
Proof.
  destruct st as [w [n log]]. cbn [tr next_id recorded rw].
  unfold callNext, exchange.
  destruct (NewRequestWithContext env {| ctx_span := Some n |} "GET" (url ++ "/"))
    as [e1|req] eqn:Hreq; run_handler; rewrite Hreq; [run_handler; reflexivity|].
  destruct (Do env req) as [e2|resp]; [run_handler; reflexivity|].
  destruct (Body resp) as [e3|body]; [run_handler; reflexivity|].
  destruct (Unmarshal body) as [e4|result]; run_handler; reflexivity.
Qed.

Lemma exchange_failure (env : NodeEnv) (sent : rctx) (url : string) (err : goerror) :
  exchange env sent url = inl err <-> call_failure env sent url err.
Proof.
  unfold exchange. split.
  - destruct (NewRequestWithContext env sent "GET" (url ++ "/")) as [e1|req] eqn:H1.
    { intros [= <-]. now apply request_not_created. }
    destruct (Do env req) as [e2|resp] eqn:H2.
    { intros [= <-]. now apply request_not_issued with req. }
    destruct (Body resp) as [e3|body] eqn:H3.
    { intros [= <-]. now apply body_not_read with req resp. }
    destruct (Unmarshal body) as [e4|result] eqn:H4.
    { intros [= <-]. now apply body_not_decoded with req resp body. }
    discriminate.
  - intros [e H1 | req e H1 H2 | req resp e H1 H2 H3 | req resp body e H1 H2 H3 H4];
      rewrite H1; try rewrite H2; try rewrite H3; try rewrite H4; reflexivity.
Qed.

Lemma exchange_ignores_status (f : Z -> Z) (env : NodeEnv) (sent : rctx) (url : string) :
  match exchange (with_status f env) sent url, exchange env sent url with
  | inl e, inl e' => e = e'
  | inr (_, m), inr (_, m') => m = m'
  | _, _ => False
  end.
Proof.
  unfold exchange, with_status, NewRequestWithContext; cbn.
  destruct (url_error env (url ++ "/")); [reflexivity|].
  destruct (Do env _) as [e|resp]; [reflexivity|]; cbn.
  destruct (Body resp); [reflexivity|].
  destruct (Unmarshal _); reflexivity.
Qed.

(** [handleRoot] of a forwarding node in one equation. *)
Lemma handleRoot_eq (cfg : Forwarder) (env : NodeEnv) (r : Request) (st : hstate) :
  let id := next_id (tr st) in
  let url := next_url cfg env in
  let x := exchange env {| ctx_span := Some (S id) |} url in
  Node.handleRoot cfg env r st =
  (tt,
   {| rw := match x with
            | inl err => Error_ (Error err) StatusInternalServerError (rw st)
            | inr (_, result) =>
                Write (Encode (JObject [("service", JString (serviceName cfg));
                                        ("message", JString (message cfg));
                                        ("result", of_gomap result)]))
                  (Header_Set "Content-Type" "application/json" (rw st))
            end;
      tr := {| next_id := S (S id);
               recorded :=
                 recorded (tr st)
                 ++ SpanStart id "handleRoot" (ctx_span (Context r))
                 :: SpanSetAttributes id [AttrString "http.method" (Method r);
                                          AttrString "http.path" (Path r)]
                 :: SpanStart (S id) (call_name cfg) (Some id)
                 :: SpanSetAttributes (S id) [AttrString (url_attr cfg) url]
                 :: match x with
                    | inl _ => []
                    | inr (code, _) =>
                        [SpanSetAttributes (S id) [AttrInt "http.status_code" code]]
                    end
                 ++ SpanEnd (S id)
                 :: match x with
                    | inl err => [SpanRecordError id err]
                    | inr _ => []
                    end
                 ++ [SpanEnd id] |} |}).
Proof.
  destruct st as [w [n log]]. cbn [tr next_id recorded rw].
  unfold Node.handleRoot, defer, Start, SetAttributes, record_event, bind.
  cbn [tr next_id recorded rw fst snd ctx_span].
  rewrite callNext_eq. cbn [tr next_id recorded rw fst snd ctx_span].
  destruct (exchange env {| ctx_span := Some (S n) |} (next_url cfg env))
    as [err|[code result]];
    unfold bind, ret, RecordError, End_, record_event, respond;
    cbn [tr next_id recorded rw fst snd];
    repeat rewrite <- app_assoc; reflexivity.
Qed.

(** C5: with B and C both answering, a GET / on node A is answered
    200 with a JSON object whose "service" is "app-a" and whose
    "result" is B's decoded response; that one holds C's payload under
    its own "result", so result.result.status is "success". *)
Theorem chain_wraps_the_terminal_payload :
  forall (getenvA getenvB : string -> string) (tA tB tC : tracer)
         (ctx : rctx) (out outB : OutRequest),
    let respA :=
      fst (serve (AppA.newHTTPHandler (healthy_chain getenvA getenvB tB tC))
             (GET "/" ctx) tA) in
    let respB := node_b getenvB tB tC out in
    let respC := node_c tC outB in
    StatusCode respA = 200%Z
    /\ field ["service"] respA = Some (JString "app-a")
    /\ field ["result"] respA = option_map JObject (decoded respB)
    /\ field ["result"; "result"] respA = option_map JObject (decoded respC)
    /\ field ["result"; "result"; "status"] respA = Some (JString "success")
    /\ field ["status"] respC = Some (JString "success").
Proof.
  intros. subst respA respB respC.
  repeat apply conj; vm_compute; reflexivity.
Qed.

(** An array is a JSON text, so the body passes the validity test,
    yet [callAppB] fails on it: the body does not fit the map. *)
Lemma valid_json_array_fails_the_call :
  let env := answering 200 "[]" in
  Valid "[]" = true
  /\ fails_on_invalid_json_only env {| ctx_span := Some 0%nat |} "http://localhost:8081"
     = false
  /\ fst (AppA.callAppB env no_span "http://localhost:8081" new_state)
     = inl (UnmarshalTypeError "array" map_type).
Proof. cbv zeta. repeat apply conj; vm_compute; reflexivity. Qed.

(** A number out of range fails the call also when a later member
    overwrites its key: every member of the body is decoded. *)
Lemma overwritten_number_fails_the_call :
  let body := JsonProps.quoted "{'a':1e999,'a':1}" in
  let env := answering 200 body in
  decodes_to_map body = false
  /\ fst (AppA.callAppB env no_span "http://localhost:8081" new_state)
     = inl (UnmarshalTypeError "number 1e999" "float64")
  /\ StatusCode (fst (serve (AppA.newHTTPHandler env) (GET "/" no_span) new_tracer))
     = 500%Z.
Proof. cbv zeta. repeat apply conj; vm_compute; reflexivity. Qed.

(** C6, amended: an outbound call fails exactly when the request is
    not created, is not issued, the body is not read, or the body does
    not decode into the map (it decodes when it is a JSON object whose
    numbers fit a float64, or null); the status code of the response
    plays no part in the result. *)
Theorem call_fails_iff_nothing_decodes :
  forall (n : forwarding_node) (env : NodeEnv) (ctx : rctx) (url : string)
         (st : hstate),
    let sent := {| ctx_span := Some (next_id (tr st)) |} in
    (forall err,
        fst (callNext (forwarder n) env ctx url st) = inl err
        <-> call_failure env sent url err)
    /\ (forall body,
          (exists err, Unmarshal body = inl err) <-> decodes_to_map body = false)
    /\ (forall f : Z -> Z,
          fst (callNext (forwarder n) (with_status f env) ctx url st)
          = fst (callNext (forwarder n) env ctx url st)).
Proof.
  intros n env ctx url st sent. subst sent. split; [|split].
  - intros err. rewrite callNext_eq. cbn [fst]. rewrite <- exchange_failure.
    destruct (exchange env _ url) as [e|[code result]].
    + split; intros [= ->]; reflexivity.
    + split; discriminate.
  - intros body. rewrite JsonProofs.Unmarshal_rejects. unfold decodes_to_map.
    destruct (parse body) as [[| b | neg man e | s | items | members]|];
      try (split; [reflexivity | trivial]).
    + split; [contradiction | discriminate].
    + tauto.
  - intros f. rewrite !callNext_eq. cbn [fst].
    pose proof (exchange_ignores_status f env
                  {| ctx_span := Some (next_id (tr st)) |} url) as H.
    destruct (exchange (with_status f env) _ url) as [e|[c m]],
             (exchange env _ url) as [e'|[c' m']];
      try contradiction; now subst.
Qed.

(** C7: when the outbound call of a forwarding node fails with [err],
    [handleRoot] records [err] on its own span and answers 500 with the
    text of [err] (and the line feed of [http.Error]) as a plain-text
    body; nothing else is written. *)
Theorem failed_call_is_answered_with_500 :
  forall (n : forwarding_node) (env : NodeEnv) (r : Request) (t : tracer)
         (err : goerror),
    call_failure env {| ctx_span := Some (S (next_id t)) |}
      (next_url (forwarder n) env) err ->
    let st' := snd (Node.handleRoot (forwarder n) env r
                      {| rw := new_response; tr := t |}) in
    status (rw st') = Some 500%Z
    /\ body (rw st') = (Error err ++ newline)%string
    /\ get_field "Content-Type" (header (rw st')) = Some "text/plain; charset=utf-8"
    /\ recorded (tr st')
       = recorded t
         ++ [SpanStart (next_id t) "handleRoot" (ctx_span (Context r));
             SpanSetAttributes (next_id t)
               [AttrString "http.method" (Method r); AttrString "http.path" (Path r)];
             SpanStart (S (next_id t)) (call_name (forwarder n)) (Some (next_id t));
             SpanSetAttributes (S (next_id t))
               [AttrString (url_attr (forwarder n)) (next_url (forwarder n) env)];
             SpanEnd (S (next_id t));
             SpanRecordError (next_id t) err;
             SpanEnd (next_id t)].
Proof.
  intros n env r t err Hfail st'. subst st'.
  apply exchange_failure in Hfail.
  rewrite handleRoot_eq. cbn [snd rw tr next_id recorded]. rewrite Hfail.
  repeat apply conj; reflexivity.
Qed.

Lemma failed_call_is_answered_with_500_witness :
  let st' := snd (Node.handleRoot (forwarder NodeA) unreachable (GET "/" no_span)
                    {| rw := new_response; tr := new_tracer |}) in
  status (rw st') = Some 500%Z
  /\ body (rw st') = (Error (ErrorString "connection refused") ++ newline)%string
  /\ get_field "Content-Type" (header (rw st')) = Some "text/plain; charset=utf-8"
  /\ recorded (tr st')
     = recorded new_tracer
       ++ [SpanStart (next_id new_tracer) "handleRoot" (ctx_span (Context (GET "/" no_span)));
           SpanSetAttributes (next_id new_tracer)
             [AttrString "http.method" (Method (GET "/" no_span));
              AttrString "http.path" (Path (GET "/" no_span))];
           SpanStart (S (next_id new_tracer)) (call_name (forwarder NodeA))
             (Some (next_id new_tracer));
           SpanSetAttributes (S (next_id new_tracer))
             [AttrString (url_attr (forwarder NodeA)) (next_url (forwarder NodeA) unreachable)];
           SpanEnd (S (next_id new_tracer));
           SpanRecordError (next_id new_tracer) (ErrorString "connection refused");
           SpanEnd (next_id new_tracer)].
Proof.
  exact (failed_call_is_answered_with_500 NodeA unreachable (GET "/" no_span)
           new_tracer (ErrorString "connection refused")
           (request_not_issued unreachable {| ctx_span := Some 1%nat |}
              "http://localhost:8081"
              {| out_method := "GET"; out_url := "http://localhost:8081/";
                 out_ctx := {| ctx_span := Some 1%nat |} |}
              (ErrorString "connection refused") eq_refl eq_refl)).
Defined.

Lemma records_only_on_nil (id : nat) : records_only_on id [].
Proof. constructor. Qed.

Lemma records_only_on_attributes (id : nat) (attrs : list attribute)
  (l : list span_event) :
  records_only_on id l -> records_only_on id (SpanSetAttributes id attrs :: l).
Proof. intros H. constructor; [apply Nat.eqb_refl | exact H]. Qed.

Lemma records_only_on_error (id : nat) (err : goerror) (l : list span_event) :
  records_only_on id l -> records_only_on id (SpanRecordError id err :: l).
Proof. intros H. constructor; [apply Nat.eqb_refl | exact H]. Qed.

Create HintDb spans.

#[local] Hint Resolve records_only_on_nil records_only_on_attributes
  records_only_on_error : spans.

(** C8: whatever the outbound call does, [handleRoot] of a forwarding
    node starts its span and the span of the call helper once each and
    ends each once, the helper's first; everything recorded on a span
    lies between its start and its end.  The same holds for the single
    span of the terminal node. *)
Theorem spans_end_once_after_their_records :
  (forall (n : forwarding_node) (env : NodeEnv) (r : Request) (st : hstate),
      let id := next_id (tr st) in
      let st' := snd (Node.handleRoot (forwarder n) env r st) in
      exists before inner after,
        recorded (tr st')
        = recorded (tr st)
          ++ SpanStart id "handleRoot" (ctx_span (Context r))
          :: before
          ++ SpanStart (S id) (call_name (forwarder n)) (Some id)
          :: inner
          ++ SpanEnd (S id)
          :: after
          ++ [SpanEnd id]
        /\ records_only_on id before
        /\ records_only_on (S id) inner
        /\ records_only_on id after)
  /\ (forall (r : Request) (st : hstate),
        let id := next_id (tr st) in
        let st' := snd (AppC.handleRoot r st) in
        exists during,
          recorded (tr st')
          = recorded (tr st)
            ++ SpanStart id "handleRoot" (ctx_span (Context r))
            :: during
            ++ [SpanEnd id]
          /\ records_only_on id during).
Proof.
  split.
  - intros n env r st id st'. subst id st'.
    rewrite handleRoot_eq. cbn [snd tr recorded].
    destruct (exchange env _ (next_url (forwarder n) env)) as [err|[code result]].
    + exists [SpanSetAttributes (next_id (tr st))
                [AttrString "http.method" (Method r); AttrString "http.path" (Path r)]],
             [SpanSetAttributes (S (next_id (tr st)))
                [AttrString (url_attr (forwarder n)) (next_url (forwarder n) env)]],
             [SpanRecordError (next_id (tr st)) err].
      repeat apply conj; auto with spans.
    + exists [SpanSetAttributes (next_id (tr st))
                [AttrString "http.method" (Method r); AttrString "http.path" (Path r)]],
             [SpanSetAttributes (S (next_id (tr st)))
                [AttrString (url_attr (forwarder n)) (next_url (forwarder n) env)];
              SpanSetAttributes (S (next_id (tr st)))
                [AttrInt "http.status_code" code]],
             [].
      repeat apply conj; auto with spans.
  - intros r [w [n log]] id st'. subst id st'. cbn [tr next_id recorded].
    exists [SpanSetAttributes n
              [AttrString "http.method" (Method r); AttrString "http.path" (Path r)];
            SpanSetAttributes n [AttrString "response.status" "success"]].
    split; [|auto with spans].
    unfold AppC.handleRoot, defer, Start, SetAttributes, End_, record_event,
      respond, bind, ret.
    cbn [snd tr recorded next_id rw]. repeat rewrite <- app_assoc. reflexivity.
Qed.

(** A GET /health on node A, next node down, fresh tracer: the
    wrapper of [newHTTPHandler] opens and ends a server span for it. *)
Lemma health_request_opens_a_span :
  recorded (snd (serve (AppA.newHTTPHandler unreachable) (GET "/health" no_span)
                   new_tracer))
  = [SpanStart 0 "/" None;
     SpanSetAttributes 0 [AttrString "http.route" "/health"];
     SpanEnd 0].
Proof. vm_compute. reflexivity. Qed.

(** The mux hands a request in canonical form to the handler of its
    pattern. *)
Lemma mux_routes (root health : Request -> M hstate unit) (r : Request) :
  String.eqb (cleanPath (Path r)) (Path r) = true ->
  mux root health r = if String.eqb (Path r) "/health" then health r else root r.
Proof. intros H. unfold mux. now rewrite H. Qed.

Lemma handleHealth_leaves_tracer (r : Request) (st : hstate) :
  tr (snd (handleHealth r st)) = tr st.
Proof. reflexivity. Qed.

(** C9, amended: a GET /health on any node is answered 200 with body
    "OK", whatever the state of the next node, and [handleHealth]
    records nothing; the request is still traced, by the one server
    span that [newHTTPHandler] wraps around every route. *)
Theorem health_answers_ok_within_the_server_span :
  forall (s : service) (env : NodeEnv) (ctx : rctx) (t : tracer),
    let served := serve (newHTTPHandler s env) (GET "/health" ctx) t in
    fst served = {| StatusCode := 200; Body := inr "OK" |}
    /\ (exists tags,
          recorded (snd served)
          = recorded t ++ SpanStart (next_id t) "/" (ctx_span ctx)
                          :: tags ++ [SpanEnd (next_id t)]
          /\ records_only_on (next_id t) tags)
    /\ (forall (r : Request) (st : hstate), tr (snd (handleHealth r st)) = tr st).
Proof.
  intros s env ctx [n log] served. subst served.
  split; [destruct s; reflexivity|]. split; [|apply handleHealth_leaves_tracer].
  exists [SpanSetAttributes n [AttrString "http.route" "/health"]].
  split; [|auto with spans].
  destruct s; cbn -[app mux]; rewrite mux_routes by reflexivity;
    cbn -[app]; repeat rewrite <- app_assoc; reflexivity.
Qed.

End NodeProofs.

(** ** More on builds, runs and the process exit *)

Module BuildProofs.
Import Otel Lifecycle LifecycleProps Process BuildProps.
Import OtelProofs.

Ltac unfold_builders :=
  unfold Internal.SetupOTelSDK, Legacy.setupOTelSDK,
    Internal.newTracerProvider, Legacy.newTracerProvider, setupFrom,
    newMeterProvider, newLoggerProvider, append_shutdownFuncs,
    SetTextMapPropagator, SetTracerProvider, SetMeterProvider,
    SetLoggerProvider.

Ltac step_build :=
  cbn -[Join joined String.eqb];
  unfold bind, emit, ret, set_shutdownFuncs, set_globals, get_shutdownFuncs;
  cbn -[Join joined String.eqb];
  rewrite ?handleErr_eq;
  cbn -[Join joined String.eqb];
  repeat rewrite <- app_assoc;
  cbn -[Join joined String.eqb].

(** The three constructor answers, case by case. *)
Ltac by_constructors sdk b :=
  unfold providers_built, pipelines_attempted, construction_error,
    construction_fails, builder_endpoint;
  destruct b as [name ep|]; cbn -[Join joined String.eqb]; unfold_builders;
  [destruct (otlptracegrpc_New sdk (if String.eqb ep EmptyString then _ else _))
  | destruct (otlptracegrpc_New sdk _)];
  destruct (stdoutmetric_New sdk); destruct (stdoutlog_New sdk);
  step_build.

(** X1: when the three constructors succeed, the build returns nil,
    has installed the propagator and the three providers, has invoked
    no teardown, and leaves the three [Shutdown] methods registered
    in the order traces, metrics, logs. *)
Theorem successful_build_installs_and_registers :
  forall (sdk : Exporters) (ctx : context) (b : builder) (st : state)
         (t m l : teardown),
    otlptracegrpc_New sdk (builder_endpoint b) = inr t ->
    stdoutmetric_New sdk = inr m ->
    stdoutlog_New sdk = inr l ->
    build sdk ctx b st
    = (None,
       {| shutdownFuncs := [t; m; l];
          globals := {| textMapPropagator := Some newPropagator;
                        tracerProvider := Some (td_id t);
                        meterProvider := Some (td_id m);
                        loggerProvider := Some (td_id l) |};
          history := history st
                     ++ [EvSetTextMapPropagator newPropagator;
                         EvConstruct Traces (Some (td_id t));
                         EvSetProvider Traces (td_id t);
                         EvConstruct Metrics (Some (td_id m));
                         EvSetProvider Metrics (td_id m);
                         EvConstruct Logs (Some (td_id l));
                         EvSetProvider Logs (td_id l)] |}).
Proof.
  intros sdk ctx b [fs g h] t m l Ht Hm Hl. unfold builder_endpoint in Ht.
  destruct b as [name ep|]; cbn -[Join joined String.eqb]; unfold_builders;
    rewrite Ht, Hm, Hl; step_build; reflexivity.
Qed.

Lemma successful_build_installs_and_registers_witness :
  build (working_sdk None None None) Background (UseInternal "app-b" EmptyString) fresh
  = (None,
     {| shutdownFuncs := [provider 1 None; provider 2 None; provider 3 None];
        globals := {| textMapPropagator := Some newPropagator;
                      tracerProvider := Some (td_id (provider 1 None));
                      meterProvider := Some (td_id (provider 2 None));
                      loggerProvider := Some (td_id (provider 3 None)) |};
        history := history fresh
                   ++ [EvSetTextMapPropagator newPropagator;
                       EvConstruct Traces (Some (td_id (provider 1 None)));
                       EvSetProvider Traces (td_id (provider 1 None));
                       EvConstruct Metrics (Some (td_id (provider 2 None)));
                       EvSetProvider Metrics (td_id (provider 2 None));
                       EvConstruct Logs (Some (td_id (provider 3 None)));
                       EvSetProvider Logs (td_id (provider 3 None))] |}).
Proof.
  exact (successful_build_installs_and_registers
           (working_sdk None None None) Background
           (UseInternal "app-b" EmptyString) fresh
           (provider 1 None) (provider 2 None) (provider 3 None)
           eq_refl eq_refl eq_refl).
Defined.

(** X2: a build stops at the first constructor that fails: the
    constructors after it are never called, and the error it returns
    is the construction error joined with the errors of the teardowns
    of what had been built, the construction error first. *)
Theorem build_stops_at_first_failure :
  forall (sdk : Exporters) (ctx : context) (b : builder) (st : state),
    let err := fst (build sdk ctx b st) in
    let st' := snd (build sdk ctx b st) in
    (exists new,
        history st' = history st ++ new
        /\ constructions new = pipelines_attempted sdk b
        /\ built new = map td_id (providers_built sdk b))
    /\ (construction_fails sdk b = true ->
        error_leaves err
        = error_leaves (construction_error sdk b)
          ++ flat_map error_leaves (callback_results ctx (providers_built sdk b)))
    /\ (construction_fails sdk b = false -> err = None).
Proof.
  intros sdk ctx b [fs g h] err st'. subst err st'.
  by_constructors sdk b;
    (split; [eexists; split; [reflexivity | split; reflexivity] | split]);
    intros Hf; try discriminate Hf; try reflexivity;
    repeat rewrite Join_pair_leaves; cbn [error_leaves app];
    rewrite ?app_nil_r; reflexivity.
Qed.

(** X3: neither a failed build nor its teardown takes a provider out
    of the globals: every provider the build constructed is, when the
    build returns its error, both shut down and still the installed
    one. *)
Theorem failed_build_leaves_stopped_providers_installed :
  forall (sdk : Exporters) (ctx : context) (b : builder) (st : state)
         (p : teardown),
    construction_fails sdk b = true ->
    In p (providers_built sdk b) ->
    let st' := snd (build sdk ctx b st) in
    In (Some (td_id p)) (installed (globals st'))
    /\ exists before after,
         history st' = history st ++ before ++ EvTeardown (td_id p) ctx :: after.
Proof.
  intros sdk ctx b [fs g h] p Hfail Hin st'. subst st'.
  revert Hfail Hin. unfold installed.
  by_constructors sdk b; intros Hfail Hin; try discriminate Hfail;
    cbn in Hin;
    repeat match goal with
           | H : _ \/ _ |- _ => destruct H as [<- | H]
           | H : False |- _ => contradiction H
           end;
    (split; [cbn; auto |]).
  all: first [ eexists [_; _; _; _], _; reflexivity
             | eexists [_; _; _; _; _], _; reflexivity
             | eexists [_; _; _; _; _; _], _; reflexivity
             | eexists [_; _; _; _; _; _; _], _; reflexivity ].
Qed.

Lemma failed_build_leaves_stopped_providers_installed_witness :
  let sdk := sdk_without_logs None None (ErrorString "no stdout") in
  let st' := snd (build sdk Background UseLegacy fresh) in
  In (Some (td_id (provider 1 None))) (installed (globals st'))
  /\ exists before after,
       history st' = history fresh ++ before
                     ++ EvTeardown (td_id (provider 1 None)) Background :: after.
Proof.
  exact (failed_build_leaves_stopped_providers_installed
           (sdk_without_logs None None (ErrorString "no stdout"))
           Background UseLegacy fresh (provider 1 None) eq_refl (or_introl eq_refl)).
Defined.

(** X4: after a successful build, one call of the returned shutdown
    function with any context invokes the three [Shutdown] methods in
    the order traces, metrics, logs with that context, returns their
    non-nil errors in that order, empties the registry and leaves the
    globals as the build set them. *)
Theorem shutdown_after_build_stops_providers_in_build_order :
  forall (sdk : Exporters) (ctx ctx' : context) (b : builder) (st : state)
         (t m l : teardown),
    otlptracegrpc_New sdk (builder_endpoint b) = inr t ->
    stdoutmetric_New sdk = inr m ->
    stdoutlog_New sdk = inr l ->
    let st1 := snd (build sdk ctx b st) in
    let err := fst (shutdown ctx' st1) in
    let st2 := snd (shutdown ctx' st1) in
    history st2 = history st1 ++ [EvTeardown (td_id t) ctx';
                                  EvTeardown (td_id m) ctx';
                                  EvTeardown (td_id l) ctx']
    /\ error_leaves err
       = error_leaves (td_run t ctx') ++ error_leaves (td_run m ctx')
         ++ error_leaves (td_run l ctx')
    /\ shutdownFuncs st2 = []
    /\ globals st2 = globals st1.
Proof.
  intros sdk ctx ctx' b [fs g h] t m l Ht Hm Hl st1 err st2. subst st1 err st2.
  unfold builder_endpoint in Ht. rewrite !shutdown_eq.
  cbn [fst snd history shutdownFuncs globals]. rewrite joined_leaves.
  destruct b as [name ep|]; cbn -[Join joined String.eqb]; unfold_builders;
    rewrite Ht, Hm, Hl; step_build; rewrite app_nil_r;
    repeat apply conj; reflexivity.
Qed.

Lemma shutdown_after_build_stops_providers_in_build_order_witness :
  let sdk := working_sdk None (Some (ErrorString "m")) (Some (ErrorString "l")) in
  let st1 := snd (build sdk Background UseLegacy fresh) in
  history (snd (shutdown Background st1))
  = history st1 ++ [EvTeardown (td_id (provider 1 None)) Background;
                    EvTeardown (td_id (provider 2 (Some (ErrorString "m")))) Background;
                    EvTeardown (td_id (provider 3 (Some (ErrorString "l")))) Background]
  /\ error_leaves (fst (shutdown Background st1))
     = error_leaves (td_run (provider 1 None) Background)
       ++ error_leaves (td_run (provider 2 (Some (ErrorString "m"))) Background)
       ++ error_leaves (td_run (provider 3 (Some (ErrorString "l"))) Background)
  /\ shutdownFuncs (snd (shutdown Background st1)) = []
  /\ globals (snd (shutdown Background st1)) = globals st1.
Proof.
  exact (shutdown_after_build_stops_providers_in_build_order
           (working_sdk None (Some (ErrorString "m")) (Some (ErrorString "l")))
           Background Background UseLegacy fresh
           (provider 1 None) (provider 2 (Some (ErrorString "m")))
           (provider 3 (Some (ErrorString "l"))) eq_refl eq_refl eq_refl).
Defined.

Lemma string_app_assoc (a b c : string) :
  ((a ++ b) ++ c)%string = (a ++ b ++ c)%string.
Proof. induction a as [|x a IH]; cbn; [reflexivity | now rewrite IH]. Qed.

Lemma concat_cons (sep x : string) (l : list string) :
  l <> [] -> String.concat sep (x :: l) = (x ++ sep ++ String.concat sep l)%string.
Proof. destruct l; [contradiction | reflexivity]. Qed.

(** The text of an accumulated error followed by more answers. *)
Lemma joined_text_step (a : error) (r : error) (rest : list string) :
  joined_text (messages [Join [a; r]] ++ rest)
  = joined_text (messages [a] ++ messages [r] ++ rest).
Proof.
  destruct a as [x|], r as [y|], rest as [|z rest]; cbn; try reflexivity.
  now rewrite !string_app_assoc.
Qed.

Lemma messages_app (l l' : list error) : messages (l ++ l') = messages l ++ messages l'.
Proof.
  unfold messages. induction l as [|[x|] l IH]; cbn; [reflexivity | | exact IH].
  now f_equal.
Qed.

Lemma joined_message (ctx : context) (fns : list teardown) :
  forall err,
    option_map Error (joined ctx fns err)
    = joined_text (messages [err] ++ messages (callback_results ctx fns)).
Proof.
  induction fns as [|fn rest IH]; intros err.
  - destruct err; reflexivity.
  - cbn [joined fold_left callback_results map]. unfold joined in IH.
    rewrite IH. fold (callback_results ctx rest).
    rewrite joined_text_step.
    change (td_run fn ctx :: callback_results ctx rest)
      with ([td_run fn ctx] ++ callback_results ctx rest).
    now rewrite messages_app.
Qed.

(** X5: the text of the error the shutdown function returns is the
    texts of the callbacks' non-nil errors, in registration order, one
    per line; there is no error when there is no such text. *)
Theorem shutdown_error_text_is_one_line_per_failure :
  forall (ctx : context) (st : state),
    option_map Error (fst (shutdown ctx st))
    = joined_text (messages (callback_results ctx (shutdownFuncs st))).
Proof.
  intros ctx st. rewrite shutdown_eq. cbn [fst]. now rewrite joined_message.
Qed.

(** X6: the trace exporter is never constructed with an empty
    endpoint: a build does the same whatever the exporter would answer
    there. *)
Theorem build_never_uses_the_empty_endpoint :
  forall (sdk sdk' : Exporters) (ctx : context) (b : builder) (st : state),
    same_off_empty_endpoint sdk sdk' ->
    build sdk ctx b st = build sdk' ctx b st.
Proof.
  intros sdk sdk' ctx b st (Ht & Hm & Hl).
  assert (He : otlptracegrpc_New sdk (builder_endpoint b)
               = otlptracegrpc_New sdk' (builder_endpoint b)).
  { apply Ht. unfold builder_endpoint. destruct b as [name ep|]; [|discriminate].
    destruct (String.eqb ep EmptyString) eqn:E; [discriminate|].
    now apply String.eqb_neq. }
  unfold builder_endpoint in He.
  destruct b as [name ep|]; cbn -[String.eqb]; unfold_builders;
    rewrite He, Hm, Hl; reflexivity.
Qed.

Lemma build_never_uses_the_empty_endpoint_witness :
  build strict_sdk Background (UseInternal "app-a" EmptyString) fresh
  = build (working_sdk None None None) Background (UseInternal "app-a" EmptyString) fresh.
Proof.
  apply (build_never_uses_the_empty_endpoint strict_sdk (working_sdk None None None)).
  repeat split. intros ep Hep. cbn. apply String.eqb_neq in Hep. now rewrite Hep.
Defined.

Lemma failed_build_returns_error (sdk : Exporters) (ctx : context) (b : builder)
  (st : state) :
  construction_fails sdk b = true -> fst (build sdk ctx b st) <> None.
Proof.
  destruct st as [fs g h]. by_constructors sdk b; intros Hf;
    try discriminate Hf; apply Join_some_left.
Qed.

(** A failed build as one state: an error, an empty registry, and a
    history that ends with the teardowns of what was built. *)
Lemma failed_build_eq (sdk : Exporters) (ctx : context) (b : builder) (st : state) :
  construction_fails sdk b = true ->
  exists e g' pre,
    build sdk ctx b st
    = (Some e,
       {| shutdownFuncs := [];
          globals := g';
          history := history st ++ pre
                     ++ map (teardown_event ctx) (providers_built sdk b) |})
    /\ existsb is_listening pre = false
    /\ teardowns pre = [].
Proof.
  destruct st as [fs g h]. cbn [history].
  by_constructors sdk b; intros Hf; try discriminate Hf;
    match goal with
    | |- context [Join ?l] => destruct (Join l) as [e|] eqn:EJ;
                               [| exfalso; revert EJ; apply Join_some_left]
    end;
    exists e; eexists;
    match goal with
    | |- exists pre, (_, {| shutdownFuncs := _; globals := _; history := ?h ++ ?l |}) = _ /\ _ =>
        let p := eval cbv in
          (filter (fun e => match e with EvTeardown _ _ => false | _ => true end) l) in
        exists p
    end;
    repeat apply conj; reflexivity.
Qed.

(** [run] and the build it starts with. *)
Lemma run_of_eq (p : program) (env : RunEnv) (st : state) :
  run_of p env st
  = (let (err, st1) := build (run_sdk env)
                         (NotifyContext (signalled_during_setup env))
                         (builder_of p env) st in
     match err with
     | Some _ => (emit EvStop ;;; ret err) st1
     | None => serve_until_stopped env st1
     end).
Proof.
  destruct p; cbn [run_of builder_of build]; unfold run, run_legacy, run_endpoint, bind;
    [destruct (Internal.SetupOTelSDK _ _ _ _ st) as [[e|] s]
    | destruct (Legacy.setupOTelSDK _ _ st) as [[e|] s]]; reflexivity.
Qed.

Lemma builder_of_endpoint (p : program) (env : RunEnv) :
  builder_endpoint (builder_of p env)
  = match p with
    | App _ => run_endpoint env
    | Root => "localhost:4317"
    end.
Proof.
  destruct p; [|reflexivity]. unfold builder_of, builder_endpoint, run_endpoint.
  destruct (String.eqb (OTEL_EXPORTER_OTLP_ENDPOINT env) EmptyString) eqn:E;
    [reflexivity | now rewrite E].
Qed.

(** X7: when a constructor fails, [run] returns the build's non-nil
    error without ever starting or draining the listener; what the
    build had constructed is torn down once, under the signal context,
    and the last thing [run] does is [stop]. *)
Theorem run_without_telemetry_never_listens :
  forall (p : program) (env : RunEnv) (st : state),
    construction_fails (run_sdk env) (builder_of p env) = true ->
    let err := fst (run_of p env st) in
    let st' := snd (run_of p env st) in
    err <> None
    /\ err = fst (build (run_sdk env) (NotifyContext (signalled_during_setup env))
                    (builder_of p env) st)
    /\ exists pre,
         history st'
         = history st ++ pre
           ++ map (teardown_event (NotifyContext (signalled_during_setup env)))
                (providers_built (run_sdk env) (builder_of p env))
           ++ [EvStop]
         /\ existsb is_listening pre = false
         /\ teardowns pre = [].
Proof.
  intros p env st Hfail err st'. subst err st'. rewrite run_of_eq.
  destruct (failed_build_eq (run_sdk env) (NotifyContext (signalled_during_setup env))
              (builder_of p env) st Hfail) as (e & g' & pre & Hb & Hl & Ht).
  rewrite Hb. cbn [fst]. split; [discriminate|]. split; [reflexivity|].
  exists pre. unfold bind, emit, ret. cbn [snd history].
  rewrite <- !app_assoc. repeat split; assumption.
Qed.

Lemma run_without_telemetry_never_listens_witness :
  let env := {| run_sdk := sdk_without_logs None None (ErrorString "no stdout");
                OTEL_EXPORTER_OTLP_ENDPOINT := EmptyString;
                signalled_during_setup := false;
                cause := Interrupted None |} in
  fst (run_of (App "app-c") env fresh) <> None
  /\ fst (run_of (App "app-c") env fresh)
     = fst (build (run_sdk env) (NotifyContext (signalled_during_setup env))
              (builder_of (App "app-c") env) fresh)
  /\ exists pre,
       history (snd (run_of (App "app-c") env fresh))
       = history fresh ++ pre
         ++ map (teardown_event (NotifyContext (signalled_during_setup env)))
              (providers_built (run_sdk env) (builder_of (App "app-c") env))
         ++ [EvStop]
       /\ existsb is_listening pre = false
       /\ teardowns pre = [].
Proof.
  exact (run_without_telemetry_never_listens (App "app-c")
           {| run_sdk := sdk_without_logs None None (ErrorString "no stdout");
              OTEL_EXPORTER_OTLP_ENDPOINT := EmptyString;
              signalled_during_setup := false;
              cause := Interrupted None |} fresh eq_refl).
Defined.

(** X8: once the build has succeeded, [run] starts the listener and,
    when it stops, returns the listener's error or the result of the
    drain; only then are the three providers shut down, in build
    order and under the background context, and [stop] comes last.
    The errors of these shutdowns are not part of what [run] returns. *)
Theorem run_drains_then_stops_providers :
  forall (p : program) (env : RunEnv) (st : state) (t m l : teardown),
    otlptracegrpc_New (run_sdk env) (builder_endpoint (builder_of p env)) = inr t ->
    stdoutmetric_New (run_sdk env) = inr m ->
    stdoutlog_New (run_sdk env) = inr l ->
    let st1 := snd (build (run_sdk env) (NotifyContext (signalled_during_setup env))
                      (builder_of p env) st) in
    let st' := snd (run_of p env st) in
    fst (run_of p env st) = stop_error env
    /\ history st'
       = history st1 ++ EvListenAndServe :: stop_events (cause env)
         ++ [EvTeardown (td_id t) Background;
             EvTeardown (td_id m) Background;
             EvTeardown (td_id l) Background;
             EvStop]
    /\ shutdownFuncs st' = []
    /\ globals st' = globals st1.
Proof.
  intros p env [fs g h] t m l Ht Hm Hl st1 st'. subst st1 st'. rewrite run_of_eq.
  revert Ht. generalize (builder_of p env) as b. intros b Ht.
  unfold builder_endpoint in Ht.
  destruct b as [name ep|]; cbn -[Join joined String.eqb serve_until_stopped];
    unfold_builders; rewrite Ht, Hm, Hl;
    cbn -[Join joined String.eqb serve_until_stopped];
    unfold bind, emit, ret, set_shutdownFuncs, set_globals, get_shutdownFuncs;
    cbn -[Join joined String.eqb serve_until_stopped];
    unfold serve_until_stopped, stop_error, stop_events, return_unnamed,
      deferred_otelShutdown, bind, emit, ret;
    destruct (cause env); cbn -[shutdown Join]; rewrite shutdown_eq;
    cbn; repeat rewrite <- app_assoc; repeat apply conj; reflexivity.
Qed.

Lemma run_drains_then_stops_providers_witness :
  let env := interrupted_with_failing_teardown in
  let st1 := snd (build (run_sdk env) (NotifyContext (signalled_during_setup env))
                    (builder_of Root env) fresh) in
  fst (run_of Root env fresh) = stop_error env
  /\ history (snd (run_of Root env fresh))
     = history st1 ++ EvListenAndServe :: stop_events (cause env)
       ++ [EvTeardown (td_id (provider 1 (Some (ErrorString "x")))) Background;
           EvTeardown (td_id (provider 2 None)) Background;
           EvTeardown (td_id (provider 3 None)) Background;
           EvStop]
  /\ shutdownFuncs (snd (run_of Root env fresh)) = []
  /\ globals (snd (run_of Root env fresh)) = globals st1.
Proof.
  exact (run_drains_then_stops_providers Root interrupted_with_failing_teardown fresh
           (provider 1 (Some (ErrorString "x"))) (provider 2 None) (provider 3 None)
           eq_refl eq_refl eq_refl).
Defined.

(** The text of the error of a failed build: the construction error,
    then the errors of the teardowns, one per line. *)
Lemma failed_build_text (sdk : Exporters) (ctx : context) (b : builder) (st : state) :
  construction_fails sdk b = true ->
  option_map Error (fst (build sdk ctx b st))
  = joined_text (messages (construction_error sdk b
                           :: callback_results ctx (providers_built sdk b))).
Proof.
  destruct st as [fs g h]. by_constructors sdk b; intros Hf; try discriminate Hf;
    repeat match goal with
           | |- context [td_run ?t ctx] => destruct (td_run t ctx)
           end;
    cbn; rewrite ?string_app_assoc; reflexivity.
Qed.

(** X9: the process exits with status 0 exactly when every
    constructor succeeded and the server was interrupted and drained
    without error; otherwise it exits with status 1 after
    [log.Fatalln] has printed the error [run] returned: after a
    started server the listener error or the drain error, after a
    failed build the build error, which reads as the construction
    error followed by the errors of the teardowns of what had been
    built, one per line. *)
Theorem exit_status_follows_build_and_stop :
  forall (p : program) (env : RunEnv) (st : state),
    let ended := fst (main_of p env st) in
    let failed := construction_fails (run_sdk env) (builder_of p env) in
    (exit_code ended = 0%Z <-> failed = false /\ cause env = Interrupted None)
    /\ (exit_code ended = 0%Z \/ exit_code ended = 1%Z)
    /\ (failed = false ->
        fatal ended = option_map (fun e => (Error e ++ newline)%string) (stop_error env))
    /\ (failed = true ->
        fatal ended
        = option_map (fun e => (Error e ++ newline)%string)
            (fst (build (run_sdk env) (NotifyContext (signalled_during_setup env))
                    (builder_of p env) st))
        /\ fatal ended
           = option_map (fun text => (text ++ newline)%string)
               (joined_text
                  (messages
                     (construction_error (run_sdk env) (builder_of p env)
                      :: callback_results
                           (NotifyContext (signalled_during_setup env))
                           (providers_built (run_sdk env) (builder_of p env)))))
        /\ fatal ended <> None).
Proof.
  intros p env st ended failed. subst ended failed.
  pose proof (failed_build_text (run_sdk env)
                (NotifyContext (signalled_during_setup env)) (builder_of p env) st)
    as Htext.
  assert (Hmain : fst (main_of p env st)
                  = match fst (run_of p env st) with
                    | Some e => {| exit_code := 1; fatal := Some (Error e ++ newline)%string |}
                    | None => {| exit_code := 0; fatal := None |}
                    end).
  { destruct p; cbn [main_of run_of]; unfold main, main_legacy, bind;
      [destruct (run _ env st) as [[e|] s] | destruct (run_legacy env st) as [[e|] s]];
      reflexivity. }
  rewrite Hmain. clear Hmain.
  assert (Hrun : fst (run_of p env st)
                 = if construction_fails (run_sdk env) (builder_of p env)
                   then fst (build (run_sdk env)
                               (NotifyContext (signalled_during_setup env))
                               (builder_of p env) st)
                   else stop_error env).
  { rewrite run_of_eq.
    pose proof (build_success (run_sdk env)
                  (NotifyContext (signalled_during_setup env)) (builder_of p env) st) as Hok.
    destruct (construction_fails (run_sdk env) (builder_of p env)) eqn:Hf.
    - destruct (build _ _ _ st) as [[e|] s] eqn:Hb; [reflexivity|].
      exfalso.
      pose proof (failed_build_returns_error (run_sdk env)
                    (NotifyContext (signalled_during_setup env))
                    (builder_of p env) st Hf) as Hne.
      rewrite Hb in Hne. now apply Hne.
    - destruct (Hok eq_refl) as [Hnil _].
      destruct (build _ _ _ st) as [err s]. cbn [fst] in Hnil. subst err.
      apply serve_until_stopped_result. }
  rewrite Hrun. clear Hrun.
  destruct (construction_fails (run_sdk env) (builder_of p env)) eqn:Hf.
  - pose proof (failed_build_returns_error (run_sdk env)
                  (NotifyContext (signalled_during_setup env))
                  (builder_of p env) st Hf) as Hne.
    specialize (Htext eq_refl).
    destruct (fst (build _ _ _ st)) as [e|]; [|now contradiction Hne].
    cbn [option_map] in Htext. rewrite <- Htext.
    cbn. repeat split; try discriminate; auto. intros [H _]; discriminate.
  - unfold stop_error. destruct (cause env) as [e | [d|]]; cbn;
      repeat split; try discriminate; auto; intros [_ H]; discriminate.
Qed.

End BuildProofs.

(** ** More on requests *)

Module RequestProofs.
Import Http Trace Json Node NodeProps RequestProps.
Import NodeProofs.

(** A root request through [newHTTPHandler] of a forwarding node, in
    one equation: the server span, then [handleRoot] inside it. *)
Lemma reaches_root_routes (root health : Request -> M hstate unit) (r : Request) :
  reaches_root (Path r) = true -> mux root health r = root r.
Proof.
  unfold reaches_root. intros H. apply andb_prop in H as [Hclean Hpath].
  apply negb_true_iff in Hpath. rewrite mux_routes by exact Hclean. now rewrite Hpath.
Qed.

Lemma serve_forwarder_root (cfg : Forwarder) (env : NodeEnv) (r : Request)
  (t : tracer) :
  reaches_root (Path r) = true ->
  let id := next_id t in
  let x := exchange env {| ctx_span := Some (S (S id)) |} (next_url cfg env) in
  serve (newHTTPHandlerWith (Node.handleRoot cfg env)) r t
  = (response_of
       match x with
       | inl err => Error_ (Error err) StatusInternalServerError new_response
       | inr (_, result) =>
           Write (wrapped cfg result)
             (Header_Set "Content-Type" "application/json" new_response)
       end,
     {| next_id := S (S (S id));
        recorded :=
          recorded t
          ++ SpanStart id "/" (ctx_span (Context r))
          :: SpanSetAttributes id [AttrString "http.route" "/"]
          :: SpanStart (S id) "handleRoot" (Some id)
          :: SpanSetAttributes (S id) [AttrString "http.method" (Method r);
                                       AttrString "http.path" (Path r)]
          :: SpanStart (S (S id)) (call_name cfg) (Some (S id))
          :: SpanSetAttributes (S (S id)) [AttrString (url_attr cfg) (next_url cfg env)]
          :: match x with
             | inl _ => []
             | inr (code, _) =>
                 [SpanSetAttributes (S (S id)) [AttrInt "http.status_code" code]]
             end
          ++ SpanEnd (S (S id))
          :: match x with
             | inl err => [SpanRecordError (S id) err]
             | inr _ => []
             end
          ++ [SpanEnd (S id); SpanEnd id] |}).
Proof.
  intros Hpath id x. subst id x. destruct t as [n log].
  unfold serve, newHTTPHandlerWith, otelhttp_NewHandler, defer,
    Start, SetAttributes, End_, record_event, bind, ret.
  cbn [tr next_id recorded rw fst snd ctx_span Context Path Method].
  rewrite reaches_root_routes by exact Hpath.
  unfold WithRouteTag, SetAttributes, record_event, bind.
  cbn [tr next_id recorded rw fst snd ctx_span Context Path Method].
  rewrite handleRoot_eq.
  cbn [tr next_id recorded rw fst snd ctx_span Context Path Method].
  unfold wrapped.
  destruct (exchange env {| ctx_span := Some (S (S n)) |} (next_url cfg env))
    as [err|[code result]];
    cbn [tr next_id recorded rw fst snd]; repeat rewrite <- app_assoc; reflexivity.
Qed.

Lemma exchange_decoded (env : NodeEnv) (url : string) (id : nat) (resp : Response)
  (text : string) (result : gomap) :
  url_error env (url ++ "/")%string = None ->
  Do env (outbound url id) = inr resp ->
  Body resp = inr text ->
  Unmarshal text = inr result ->
  exchange env {| ctx_span := Some id |} url = inr (StatusCode resp, result).
Proof.
  intros Hu Hd Hb Hj. unfold exchange, NewRequestWithContext. rewrite Hu.
  unfold outbound in Hd. now rewrite Hd, Hb, Hj.
Qed.

(** X10: when the next node's body decodes, [handleRoot] of a
    forwarding node answers 200 with a JSON content type and the
    object of service, message and result as body, whatever status
    code the next node sent; that code only becomes an attribute of
    the call's span, and no error is recorded. *)
Theorem decoded_answer_is_wrapped_whatever_its_status :
  forall (n : forwarding_node) (env : NodeEnv) (r : Request) (t : tracer)
         (resp : Response) (text : string) (result : gomap),
    let url := next_url (forwarder n) env in
    url_error env (url ++ "/")%string = None ->
    Do env (outbound url (S (next_id t))) = inr resp ->
    Body resp = inr text ->
    Unmarshal text = inr result ->
    let st' := snd (Node.handleRoot (forwarder n) env r
                      {| rw := new_response; tr := t |}) in
    status (rw st') = Some 200%Z
    /\ get_field "Content-Type" (header (rw st')) = Some "application/json"
    /\ body (rw st') = wrapped (forwarder n) result
    /\ recorded (tr st')
       = recorded t
         ++ [SpanStart (next_id t) "handleRoot" (ctx_span (Context r));
             SpanSetAttributes (next_id t)
               [AttrString "http.method" (Method r); AttrString "http.path" (Path r)];
             SpanStart (S (next_id t)) (call_name (forwarder n)) (Some (next_id t));
             SpanSetAttributes (S (next_id t)) [AttrString (url_attr (forwarder n)) url];
             SpanSetAttributes (S (next_id t))
               [AttrInt "http.status_code" (StatusCode resp)];
             SpanEnd (S (next_id t));
             SpanEnd (next_id t)].
Proof.
  intros n env r t resp text result url Hu Hd Hb Hj st'. subst st' url.
  rewrite handleRoot_eq. cbn [snd rw tr next_id recorded].
  rewrite (exchange_decoded env _ _ resp text result Hu Hd Hb Hj).
  repeat apply conj; reflexivity.
Qed.

Lemma decoded_answer_is_wrapped_whatever_its_status_witness :
  let env := answering 500 "{}" in
  let resp := {| StatusCode := 500; Body := inr "{}" |} in
  let r := GET "/" no_span in
  let st' := snd (Node.handleRoot (forwarder NodeA) env r
                    {| rw := new_response; tr := new_tracer |}) in
  status (rw st') = Some 200%Z
  /\ get_field "Content-Type" (header (rw st')) = Some "application/json"
  /\ body (rw st') = wrapped (forwarder NodeA) (Some [])
  /\ recorded (tr st')
     = recorded new_tracer
       ++ [SpanStart (next_id new_tracer) "handleRoot" (ctx_span (Context r));
           SpanSetAttributes (next_id new_tracer)
             [AttrString "http.method" (Method r); AttrString "http.path" (Path r)];
           SpanStart (S (next_id new_tracer)) (call_name (forwarder NodeA))
             (Some (next_id new_tracer));
           SpanSetAttributes (S (next_id new_tracer))
             [AttrString (url_attr (forwarder NodeA)) (next_url (forwarder NodeA) env)];
           SpanSetAttributes (S (next_id new_tracer))
             [AttrInt "http.status_code" (StatusCode resp)];
           SpanEnd (S (next_id new_tracer));
           SpanEnd (next_id new_tracer)].
Proof.
  exact (decoded_answer_is_wrapped_whatever_its_status NodeA (answering 500 "{}")
           (GET "/" no_span) new_tracer {| StatusCode := 500; Body := inr "{}" |}
           "{}" (Some []) eq_refl eq_refl eq_refl eq_refl).
Defined.

(** X11: a failure one hop further is passed on as a failure: when
    node B's own outbound call fails with [err], B answers the GET /
    that node A sends with 500 and the text of [err]; unless that text
    happens to decode into a map, node A's call fails in the decoding
    and A answers its own GET / with 500 as well. *)
Theorem failure_two_hops_away_is_answered_with_500 :
  forall (envB : NodeEnv) (tA tB : tracer) (getenvA : string -> string)
         (ctx : rctx) (err : goerror),
    call_failure envB {| ctx_span := Some (S (S (next_id tB))) |}
      (next_url AppB.config envB) err ->
    decodes_to_map (Error err ++ newline)%string = false ->
    let envA := reaching getenvA (node_b_in envB tB) in
    let sentA := {| ctx_span := Some (S (S (next_id tA))) |} in
    let respB := node_b_in envB tB
                   (outbound (next_url AppA.config envA) (S (S (next_id tA)))) in
    let respA := fst (serve (AppA.newHTTPHandler envA) (GET "/" ctx) tA) in
    respB = {| StatusCode := 500; Body := inr (Error err ++ newline)%string |}
    /\ StatusCode respA = 500%Z
    /\ exists e, Unmarshal (Error err ++ newline)%string = inl e
                 /\ call_failure envA sentA (next_url AppA.config envA) e.
Proof.
  intros envB tA tB getenvA ctx err Hfail Hdec envA sentA respB respA.
  subst respA respB sentA.
  apply exchange_failure in Hfail.
  assert (HB : forall out,
             node_b_in envB tB out
             = {| StatusCode := 500; Body := inr (Error err ++ newline)%string |}).
  { intros out. unfold node_b_in, AppB.newHTTPHandler, AppB.handleRoot.
    rewrite serve_forwarder_root by reflexivity. cbn [fst]. now rewrite Hfail. }
  split; [apply HB|].
  destruct (proj2 (JsonProofs.Unmarshal_rejects (Error err ++ newline)%string)) as [e He].
  { unfold decodes_to_map in Hdec.
    destruct (parse (Error err ++ newline)%string) as [[| | | | |members]|];
      try exact I; [discriminate | exact Hdec]. }
  assert (Hx : exchange envA {| ctx_span := Some (S (S (next_id tA))) |}
                 (next_url AppA.config envA) = inl e).
  { unfold exchange, NewRequestWithContext. subst envA. cbn [url_error Do reaching].
    rewrite HB. cbn [Body]. now rewrite He. }
  unfold AppA.newHTTPHandler, AppA.handleRoot.
  rewrite serve_forwarder_root by reflexivity. cbn [fst]. rewrite Hx.
  split; [reflexivity|]. exists e. split; [exact He | now apply exchange_failure].
Qed.

Lemma failure_two_hops_away_is_answered_with_500_witness :
  let envA := reaching no_variables (node_b_in unreachable new_tracer) in
  let sentA := {| ctx_span := Some 2%nat |} in
  let respB := node_b_in unreachable new_tracer
                 (outbound (next_url AppA.config envA) 2) in
  let respA := fst (serve (AppA.newHTTPHandler envA) (GET "/" no_span) new_tracer) in
  respB = {| StatusCode := 500;
             Body := inr (Error (ErrorString "connection refused") ++ newline)%string |}
  /\ StatusCode respA = 500%Z
  /\ exists e, Unmarshal (Error (ErrorString "connection refused") ++ newline)%string
               = inl e
               /\ call_failure envA sentA (next_url AppA.config envA) e.
Proof.
  exact (failure_two_hops_away_is_answered_with_500 unreachable new_tracer new_tracer
           no_variables no_span (ErrorString "connection refused")
           (request_not_issued unreachable {| ctx_span := Some 2%nat |}
              "http://localhost:8082"
              {| out_method := "GET"; out_url := "http://localhost:8082/";
                 out_ctx := {| ctx_span := Some 2%nat |} |}
              (ErrorString "connection refused") eq_refl eq_refl)
           eq_refl).
Defined.

(** X12: a next node that answers the JSON text null is taken as a
    success: the call yields the nil map and the forwarding node
    answers 200 with "result" set to null. *)
Theorem null_answer_is_wrapped_as_null :
  forall (n : forwarding_node) (env : NodeEnv) (r : Request) (t : tracer)
         (resp : Response) (text : string),
    let url := next_url (forwarder n) env in
    url_error env (url ++ "/")%string = None ->
    Do env (outbound url (S (next_id t))) = inr resp ->
    Body resp = inr text ->
    parse text = Some JNull ->
    let answer := response_of (rw (snd (Node.handleRoot (forwarder n) env r
                                          {| rw := new_response; tr := t |}))) in
    StatusCode answer = 200%Z
    /\ field ["result"] answer = Some JNull
    /\ field ["service"] answer = Some (JString (serviceName (forwarder n))).
Proof.
  intros n env r t resp text url Hu Hd Hb Hp answer. subst answer url.
  assert (Hj : Unmarshal text = inr None).
  { unfold Unmarshal. now rewrite Hp. }
  rewrite handleRoot_eq. cbn [snd rw tr next_id recorded].
  rewrite (exchange_decoded env _ _ resp text None Hu Hd Hb Hj).
  destruct n; repeat apply conj; vm_compute; reflexivity.
Qed.

Lemma null_answer_is_wrapped_as_null_witness :
  let answer := response_of (rw (snd (Node.handleRoot (forwarder NodeB)
                                        (answering 200 " null ") (GET "/" no_span)
                                        {| rw := new_response; tr := new_tracer |}))) in
  StatusCode answer = 200%Z
  /\ field ["result"] answer = Some JNull
  /\ field ["service"] answer = Some (JString (serviceName (forwarder NodeB))).
Proof.
  exact (null_answer_is_wrapped_as_null NodeB (answering 200 " null ")
           (GET "/" no_span) new_tracer {| StatusCode := 200; Body := inr " null " |}
           " null " eq_refl eq_refl eq_refl eq_refl).
Defined.

(** X13: [callNext] reaches the network through one request only: a
    GET of the URL followed by a slash, carrying the call's own span.
    Surroundings that agree on that URL and that request give the
    same result and the same record. *)
Theorem call_depends_on_one_request_only :
  forall (cfg : Forwarder) (env env' : NodeEnv) (ctx : rctx) (url : string)
         (st : hstate),
    url_error env (url ++ "/")%string = url_error env' (url ++ "/")%string ->
    Do env (outbound url (next_id (tr st))) = Do env' (outbound url (next_id (tr st))) ->
    callNext cfg env ctx url st = callNext cfg env' ctx url st.
Proof.
  intros cfg env env' ctx url st Hu Hd. rewrite !callNext_eq.
  assert (Hx : exchange env {| ctx_span := Some (next_id (tr st)) |} url
               = exchange env' {| ctx_span := Some (next_id (tr st)) |} url).
  { unfold exchange, NewRequestWithContext. rewrite Hu.
    destruct (url_error env' (url ++ "/")%string); [reflexivity|].
    unfold outbound in Hd. now rewrite Hd. }
  now rewrite Hx.
Qed.

Lemma call_depends_on_one_request_only_witness :
  callNext AppA.config (answering 200 "{}") no_span "http://localhost:8081" new_state
  = callNext AppA.config
      {| Getenv := no_variables;
         url_error := fun u => if String.eqb u "http://localhost:8081/"
                               then None else Some (ErrorString "bad URL");
         Do := fun out => if String.eqb (out_url out) "http://localhost:8081/"
                          then inr {| StatusCode := 200; Body := inr "{}" |}
                          else inl (ErrorString "no route") |}
      no_span "http://localhost:8081" new_state.
Proof.
  apply (call_depends_on_one_request_only AppA.config (answering 200 "{}")); reflexivity.
Defined.

Lemma serve_terminal_root (r : Request) (t : tracer) :
  reaches_root (Path r) = true ->
  serve AppC.newHTTPHandler r t
  = (response_of
       (Write (Encode (JObject [("service", JString AppC.serviceName);
                                ("message", JString "Resposta final do App C");
                                ("status", JString "success")]))
          (Header_Set "Content-Type" "application/json" new_response)),
     {| next_id := S (S (next_id t));
        recorded := recorded t
                    ++ [SpanStart (next_id t) "/" (ctx_span (Context r));
                        SpanSetAttributes (next_id t) [AttrString "http.route" "/"];
                        SpanStart (S (next_id t)) "handleRoot" (Some (next_id t));
                        SpanSetAttributes (S (next_id t))
                          [AttrString "http.method" (Method r);
                           AttrString "http.path" (Path r)];
                        SpanSetAttributes (S (next_id t))
                          [AttrString "response.status" "success"];
                        SpanEnd (S (next_id t)); SpanEnd (next_id t)] |}).
Proof.
  intros Hpath. destruct t as [n log].
  unfold serve, AppC.newHTTPHandler, newHTTPHandlerWith, otelhttp_NewHandler, defer,
    Start, SetAttributes, End_, record_event, bind, ret.
  cbn [tr next_id recorded rw fst snd ctx_span Context Path Method].
  rewrite reaches_root_routes by exact Hpath.
  unfold WithRouteTag, AppC.handleRoot, defer, Start, SetAttributes, End_,
    record_event, respond, bind, ret.
  cbn [tr next_id recorded rw fst snd ctx_span Context Path Method].
  repeat rewrite <- app_assoc. reflexivity.
Qed.

(** A request whose path is not in canonical form reaches no handler:
    the mux answers it with a redirect to the canonical path, and no
    span of [handleRoot] is started. *)
Example double_slash_is_redirected :
  let served := serve AppC.newHTTPHandler (GET "//x/../y" no_span) new_tracer in
  StatusCode (fst served) = 301%Z
  /\ get_field "Location"
       (header (Redirect "GET" (cleanPath "//x/../y") new_response)) = Some "/y"
  /\ forall id parent, ~ In (SpanStart id "handleRoot" parent) (recorded (snd served)).
Proof.
  cbv zeta. split; [vm_compute; reflexivity|]. split; [vm_compute; reflexivity|].
  intros id parent. vm_compute. intros [H|[H|[]]]; discriminate.
Qed.

Example canonical_paths :
  map cleanPath ["/"; "/health"; "/orders/7"; "/orders/"; EmptyString; "x";
                 "//x/../y"; "/a/./b/"; "/.."; "/a//"; "/a/b/../../../c"]
  = ["/"; "/health"; "/orders/7"; "/orders/"; "/"; "/x";
     "/y"; "/a/b/"; "/"; "/a/"; "/c"].
Proof. vm_compute. reflexivity. Qed.

(** X14: a request for the root route is served inside the server
    span that [newHTTPHandler] wraps around the mux: that span is
    started first, as a child of the span the request carries, and
    tagged with the route; the span of [handleRoot] is its child; it
    is ended last, after the span of [handleRoot], and neither span is
    ended before. *)
Theorem root_request_runs_inside_the_server_span :
  forall (s : service) (env : NodeEnv) (r : Request) (t : tracer),
    reaches_root (Path r) = true ->
    let id := next_id t in
    exists tags inner closing,
      recorded (snd (serve (newHTTPHandler s env) r t))
      = recorded t
        ++ SpanStart id "/" (ctx_span (Context r))
        :: tags
        ++ SpanStart (S id) "handleRoot" (Some id)
        :: inner
        ++ SpanEnd (S id)
        :: closing
        ++ [SpanEnd id]
      /\ records_only_on id tags
      /\ In (SpanSetAttributes id [AttrString "http.route" "/"]) tags
      /\ records_only_on id closing
      /\ ~ In (SpanEnd id) inner
      /\ ~ In (SpanEnd (S id)) inner.
Proof.
  intros s env r t Hpath id. subst id.
  exists [SpanSetAttributes (next_id t) [AttrString "http.route" "/"]].
  assert (Hnil : records_only_on (next_id t) []) by apply records_only_on_nil.
  assert (Htags : records_only_on (next_id t)
                    [SpanSetAttributes (next_id t) [AttrString "http.route" "/"]])
    by (apply records_only_on_attributes, Hnil).
  assert (Hne : S (S (next_id t)) <> next_id t) by lia.
  assert (Hne' : S (S (next_id t)) <> S (next_id t)) by lia.
  destruct s.
  - unfold newHTTPHandler, AppA.newHTTPHandler, AppA.handleRoot.
    rewrite serve_forwarder_root by exact Hpath. cbn [snd recorded].
    destruct (exchange env _ _) as [err|[code result]].
    + exists [SpanSetAttributes (S (next_id t))
                [AttrString "http.method" (Method r); AttrString "http.path" (Path r)];
              SpanStart (S (S (next_id t))) (call_name AppA.config) (Some (S (next_id t)));
              SpanSetAttributes (S (S (next_id t)))
                [AttrString (url_attr AppA.config) (next_url AppA.config env)];
              SpanEnd (S (S (next_id t)));
              SpanRecordError (S (next_id t)) err], [].
      split; [reflexivity|].
      split; [exact Htags|]. split; [now left|]. split; [exact Hnil|].
      cbn; split; intros H; repeat destruct H as [H|H]; congruence.
    + exists [SpanSetAttributes (S (next_id t))
                [AttrString "http.method" (Method r); AttrString "http.path" (Path r)];
              SpanStart (S (S (next_id t))) (call_name AppA.config) (Some (S (next_id t)));
              SpanSetAttributes (S (S (next_id t)))
                [AttrString (url_attr AppA.config) (next_url AppA.config env)];
              SpanSetAttributes (S (S (next_id t))) [AttrInt "http.status_code" code];
              SpanEnd (S (S (next_id t)))], [].
      split; [reflexivity|].
      split; [exact Htags|]. split; [now left|]. split; [exact Hnil|].
      cbn; split; intros H; repeat destruct H as [H|H]; congruence.
  - unfold newHTTPHandler, AppB.newHTTPHandler, AppB.handleRoot.
    rewrite serve_forwarder_root by exact Hpath. cbn [snd recorded].
    destruct (exchange env _ _) as [err|[code result]].
    + exists [SpanSetAttributes (S (next_id t))
                [AttrString "http.method" (Method r); AttrString "http.path" (Path r)];
              SpanStart (S (S (next_id t))) (call_name AppB.config) (Some (S (next_id t)));
              SpanSetAttributes (S (S (next_id t)))
                [AttrString (url_attr AppB.config) (next_url AppB.config env)];
              SpanEnd (S (S (next_id t)));
              SpanRecordError (S (next_id t)) err], [].
      split; [reflexivity|].
      split; [exact Htags|]. split; [now left|]. split; [exact Hnil|].
      cbn; split; intros H; repeat destruct H as [H|H]; congruence.
    + exists [SpanSetAttributes (S (next_id t))
                [AttrString "http.method" (Method r); AttrString "http.path" (Path r)];
              SpanStart (S (S (next_id t))) (call_name AppB.config) (Some (S (next_id t)));
              SpanSetAttributes (S (S (next_id t)))
                [AttrString (url_attr AppB.config) (next_url AppB.config env)];
              SpanSetAttributes (S (S (next_id t))) [AttrInt "http.status_code" code];
              SpanEnd (S (S (next_id t)))], [].
      split; [reflexivity|].
      split; [exact Htags|]. split; [now left|]. split; [exact Hnil|].
      cbn; split; intros H; repeat destruct H as [H|H]; congruence.
  - unfold newHTTPHandler. rewrite serve_terminal_root by exact Hpath.
    cbn [snd recorded].
    exists [SpanSetAttributes (S (next_id t))
              [AttrString "http.method" (Method r); AttrString "http.path" (Path r)];
            SpanSetAttributes (S (next_id t)) [AttrString "response.status" "success"]],
           [].
    split; [reflexivity|].
    split; [exact Htags|]. split; [now left|]. split; [exact Hnil|].
    cbn; split; intros H; repeat destruct H as [H|H]; congruence.
Qed.

Lemma root_request_runs_inside_the_server_span_witness :
  exists tags inner closing,
    recorded (snd (serve (newHTTPHandler ServiceB (answering 200 "{}"))
                     (GET "/" no_span) new_tracer))
    = recorded new_tracer
      ++ SpanStart (next_id new_tracer) "/" (ctx_span (Context (GET "/" no_span)))
      :: tags
      ++ SpanStart (S (next_id new_tracer)) "handleRoot" (Some (next_id new_tracer))
      :: inner
      ++ SpanEnd (S (next_id new_tracer))
      :: closing
      ++ [SpanEnd (next_id new_tracer)]
    /\ records_only_on (next_id new_tracer) tags
    /\ In (SpanSetAttributes (next_id new_tracer) [AttrString "http.route" "/"]) tags
    /\ records_only_on (next_id new_tracer) closing
    /\ ~ In (SpanEnd (next_id new_tracer)) inner
    /\ ~ In (SpanEnd (S (next_id new_tracer))) inner.
Proof.
  exact (root_request_runs_inside_the_server_span ServiceB (answering 200 "{}")
           (GET "/" no_span) new_tracer eq_refl).
Defined.

(** [handleRoot] of each service: what differs between two requests
    with the same context is the one record of method and path. *)
Lemma handleRoot_of_eq (s : service) (env : NodeEnv) (r : Request) (st : hstate) :
  exists w after,
    forall (m p : string),
      snd (handleRoot_of s env {| Method := m; Path := p; Context := Context r |} st)
      = {| rw := w;
           tr := {| next_id := next_id (tr (snd (handleRoot_of s env r st)));
                    recorded :=
                      (recorded (tr st)
                       ++ [SpanStart (next_id (tr st)) "handleRoot"
                             (ctx_span (Context r))])
                      ++ SpanSetAttributes (next_id (tr st))
                           [AttrString "http.method" m; AttrString "http.path" p]
                      :: after |} |}.
Proof.
  destruct s; cbn [handleRoot_of].
  - unfold AppA.handleRoot. eexists. eexists. intros m p.
    rewrite !handleRoot_eq. cbn [snd tr next_id recorded Context Method Path].
    rewrite <- app_assoc. reflexivity.
  - unfold AppB.handleRoot. eexists. eexists. intros m p.
    rewrite !handleRoot_eq. cbn [snd tr next_id recorded Context Method Path].
    rewrite <- app_assoc. reflexivity.
  - destruct st as [w [n log]]. eexists. eexists. intros m p.
    unfold AppC.handleRoot, defer, Start, SetAttributes, End_, record_event, respond,
      bind, ret.
    cbn [snd tr next_id recorded rw Context Method Path].
    repeat rewrite <- app_assoc. reflexivity.
Qed.

(** X15: [handleRoot] reads the method and the path of a request only
    to record them on its span: for two requests with the same
    context it writes the same response, and the two records differ
    in that one entry.  So, through [newHTTPHandler], two GET requests
    whose paths the mux hands to the root handler get the same
    answer. *)
Theorem method_and_path_are_only_recorded :
  forall (s : service) (env : NodeEnv) (ctx : rctx) (m m' p p' : string)
         (st : hstate),
    let r := {| Method := m; Path := p; Context := ctx |} in
    let r' := {| Method := m'; Path := p'; Context := ctx |} in
    let done := snd (handleRoot_of s env r st) in
    let done' := snd (handleRoot_of s env r' st) in
    rw done = rw done'
    /\ (exists before after,
          recorded (tr done)
          = before ++ SpanSetAttributes (next_id (tr st))
                        [AttrString "http.method" m; AttrString "http.path" p]
                   :: after
          /\ recorded (tr done')
             = before ++ SpanSetAttributes (next_id (tr st))
                           [AttrString "http.method" m'; AttrString "http.path" p']
                      :: after)
    /\ (forall t : tracer,
          reaches_root p = true ->
          reaches_root p' = true ->
          fst (serve (newHTTPHandler s env) (GET p ctx) t)
          = fst (serve (newHTTPHandler s env) (GET p' ctx) t)).
Proof.
  intros s env ctx m m' p p' st r r' done done'. subst done done' r r'.
  destruct (handleRoot_of_eq s env {| Method := m; Path := p; Context := ctx |} st)
    as (w & after & H).
  cbn [Context] in H. rewrite (H m p), (H m' p'). cbn [rw tr recorded].
  split; [reflexivity|]. split.
  - eexists. exists after. split; reflexivity.
  - intros t Hp Hp'. destruct s.
    + unfold newHTTPHandler, AppA.newHTTPHandler, AppA.handleRoot.
      now rewrite !serve_forwarder_root by assumption.
    + unfold newHTTPHandler, AppB.newHTTPHandler, AppB.handleRoot.
      now rewrite !serve_forwarder_root by assumption.
    + unfold newHTTPHandler. now rewrite !serve_terminal_root by assumption.
Qed.

Example any_method_and_path_in_canonical_form :
  rw (snd (handleRoot_of ServiceA unreachable
             {| Method := "DELETE"; Path := "/orders/7"; Context := no_span |}
             new_state))
  = rw (snd (handleRoot_of ServiceA unreachable (GET "/" no_span) new_state))
  /\ fst (serve (newHTTPHandler ServiceC unreachable) (GET "/orders/7" no_span)
            new_tracer)
     = fst (serve (newHTTPHandler ServiceC unreachable) (GET "/" no_span) new_tracer).
Proof. split; vm_compute; reflexivity. Qed.

(** X18: [handleRoot] of a forwarding node answers with status 200 or
    with status 500 and with no other, and with 500 exactly when its
    outbound call fails. *)
Theorem forwarder_answers_200_or_500 :
  forall (n : forwarding_node) (env : NodeEnv) (r : Request) (t : tracer),
    let w := rw (snd (Node.handleRoot (forwarder n) env r
                        {| rw := new_response; tr := t |})) in
    let sent := {| ctx_span := Some (S (next_id t)) |} in
    (status w = Some 500%Z
     <-> exists err, call_failure env sent (next_url (forwarder n) env) err)
    /\ (status w = Some 200%Z
        <-> forall err, ~ call_failure env sent (next_url (forwarder n) env) err)
    /\ (status w = Some 200%Z \/ status w = Some 500%Z).
Proof.
  intros n env r t w sent. subst w sent.
  rewrite handleRoot_eq. cbn [snd rw tr next_id].
  destruct (exchange env {| ctx_span := Some (S (next_id t)) |}
              (next_url (forwarder n) env)) as [err|[code result]] eqn:Hx.
  - apply exchange_failure in Hx. cbn.
    split; [split; [intros _; now exists err | intros _; reflexivity]|].
    split; [split; [discriminate | intros H; exfalso; exact (H err Hx)] | now right].
  - assert (Hno : forall err, ~ call_failure env {| ctx_span := Some (S (next_id t)) |}
                                (next_url (forwarder n) env) err).
    { intros err H. apply exchange_failure in H. rewrite Hx in H. discriminate. }
    cbn.
    split; [split; [discriminate | intros [err H]; exfalso; exact (Hno err H)]|].
    split; [split; [intros _; exact Hno | intros _; reflexivity] | now left].
Qed.

End RequestProofs.

(** ** Values written and read back *)


Module RoundTrip.
Import Json JsonProps.
Import JsonProofs.

Lemma escaped_char_is_read_back (c : ascii) :
  exists u,
    (forall t, scan_string (escape_char c ++ t)%string
               = match scan_string t with
                 | Some (us, out) => Some (u :: us, out)
                 | None => None
                 end)
    /\ (forall us, units_to_string (u :: us) = String c (units_to_string us)).
Proof.
  destruct c as [[] [] [] [] [] [] [] []];
    eexists; (split; [intros t; cbn; reflexivity | intros us; reflexivity]).
Qed.

Lemma app_string_assoc (a b c : string) :
  ((a ++ b) ++ c)%string = (a ++ b ++ c)%string.
Proof. induction a as [|x a IH]; cbn; [reflexivity | now rewrite IH]. Qed.

Lemma length_app (a b : string) :
  String.length (a ++ b)%string = String.length a + String.length b.
Proof. induction a as [|x a IH]; cbn; [reflexivity | now rewrite IH]. Qed.

Lemma escaped_string_is_read_back (s rest : string) :
  parse_string (escape s ++ String quote rest)%string = Some (s, rest).
Proof.
  unfold parse_string.
  assert (H : exists us, scan_string (escape s ++ String quote rest)%string = Some (us, rest)
                         /\ units_to_string us = s).
  { induction s as [|c s (us & Hscan & Hunits)].
    - exists []. split; reflexivity.
    - destruct (escaped_char_is_read_back c) as (u & Hu & Hback).
      exists (u :: us). cbn [escape]. rewrite app_string_assoc, Hu, Hscan.
      split; [reflexivity|]. now rewrite Hback, Hunits. }
  destruct H as (us & -> & ->). reflexivity.
Qed.

(** A text written by [encode] starts with a character that is
    neither white space nor a closing bracket. *)
Lemma encode_head (v : json) :
  plain v = true ->
  exists c tl, encode v = String c tl
               /\ is_space c = false
               /\ Ascii.eqb "]" c = false
               /\ Ascii.eqb "}" c = false.
Proof.
  destruct v as [| [] | neg m e text | s | items | members]; cbn [encode plain];
    try discriminate; intros _; eexists _, _; repeat split; reflexivity.
Qed.

Lemma skip_space_encode (v : json) (rest : string) :
  plain v = true -> skip_space (encode v ++ rest)%string = (encode v ++ rest)%string.
Proof.
  intros Hp. destruct (encode_head v Hp) as (c & tl & -> & Hs & _).
  cbn. now rewrite Hs.
Qed.

Lemma encode_not_closing (v : json) (rest : string) :
  plain v = true ->
  starts_with "]" (skip_space (encode v ++ rest)%string) = false
  /\ starts_with "}" (skip_space (encode v ++ rest)%string) = false.
Proof.
  intros Hp. rewrite skip_space_encode by exact Hp.
  destruct (encode_head v Hp) as (c & tl & -> & _ & Ha & Ho). cbn. now split.
Qed.

Lemma concat_length_head (sep e : string) (l : list string) :
  String.length e <= String.length (String.concat sep (e :: l)).
Proof.
  destruct l as [|y l]; [cbn; lia|].
  rewrite BuildProofs.concat_cons by discriminate. rewrite length_app. lia.
Qed.

Lemma fold_max_ge (l : list N) (x : N) : In x l -> (x <= fold_right N.max 0 l)%N.
Proof.
  induction l as [|y l IH]; [contradiction|]. cbn [fold_right].
  intros [-> | Hin]; [lia | specialize (IH Hin); lia].
Qed.

Lemma elements_read_back (items : list json) :
  Forall reads_back items ->
  forallb plain items = true ->
  items <> [] ->
  forall (fuel : nat) (depth : N) (rest : string),
    (forall x, In x items -> (depth + height x <= maxNestingDepth)%N) ->
    2 * String.length (String.concat "," (map encode items)) <= fuel ->
    parse_elements fuel depth
      (String.concat "," (map encode items) ++ String "]" rest)%string
    = Some (map canonical items, rest).
Proof.
  induction items as [|x items IH]; intros HP Hplain Hne fuel depth rest Hd Hf;
    [contradiction|].
  inversion HP as [|? ? Hx Hrest]; subst.
  cbn [forallb] in Hplain. apply andb_prop in Hplain as [Hpx Hpl].
  cbn [map] in *. pose proof (concat_length_head "," (encode x) (map encode items)) as Hlen.
  assert (Hex : 1 <= String.length (encode x)).
  { destruct (encode_head x Hpx) as (c & tl & -> & _). cbn; lia. }
  destruct fuel as [|g]; [lia|]. cbn [parse_elements].
  destruct items as [|y items].
  - cbn [String.concat map] in *.
    rewrite (Hx Hpx g depth (String "]" rest)); [reflexivity | apply Hd; now left | lia].
  - remember (y :: items) as more eqn:Hmore.
    assert (Hm : map encode more <> []) by (subst more; discriminate).
    rewrite BuildProofs.concat_cons in * by exact Hm.
    rewrite !BuildProofs.string_app_assoc. cbn [String.append].
    rewrite !length_app in Hf. cbn [String.length] in Hf.
    rewrite (Hx Hpx g depth); [| apply Hd; now left | lia].
    change (skip_space (String "," ?t)) with (String "," t).
    change (Ascii.eqb "," ",") with true. cbv iota.
    rewrite IH; [reflexivity | exact Hrest | exact Hpl | subst more; discriminate | | lia].
    intros z Hz. apply Hd. now right.
Qed.

Lemma member_text_shape (k : string) (x : json) (tail : string) :
  (member_text (k, x) ++ tail)%string
  = String quote (escape k ++ String quote (String ":" (encode x ++ tail)))%string.
Proof.
  unfold member_text, on_value, encode_member, encode_string. cbn [fst snd String.append].
  now rewrite !BuildProofs.string_app_assoc.
Qed.

Lemma member_text_length (k : string) (x : json) :
  String.length (encode x) + 3 <= String.length (member_text (k, x)).
Proof.
  unfold member_text, on_value, encode_member, encode_string.
  cbn [fst snd String.append String.length]. rewrite !length_app.
  cbn [String.length]. lia.
Qed.

Lemma members_read_back (ps : list (string * json)) :
  Forall (fun kv => reads_back (snd kv)) ps ->
  forallb (fun kv => plain (snd kv)) ps = true ->
  ps <> [] ->
  forall (fuel : nat) (depth : N) (rest : string),
    (forall kv, In kv ps -> (depth + height (snd kv) <= maxNestingDepth)%N) ->
    2 * String.length (String.concat "," (map member_text ps)) <= fuel ->
    parse_members fuel depth
      (String.concat "," (map member_text ps) ++ String "}" rest)%string
    = Some (map (on_value canonical) ps, rest).
Proof.
  induction ps as [|[k x] ps IH]; intros HP Hplain Hne fuel depth rest Hd Hf;
    [contradiction|].
  inversion HP as [|? ? Hx Hrest]; subst. cbn [snd] in Hx.
  cbn [forallb snd] in Hplain. apply andb_prop in Hplain as [Hpx Hpl].
  cbn [map] in *.
  pose proof (concat_length_head "," (member_text (k, x)) (map member_text ps)) as Hlen.
  pose proof (member_text_length k x) as Hmem.
  destruct fuel as [|g]; [lia|]. cbn [parse_members].
  destruct ps as [|p ps].
  - cbn [String.concat map] in *. rewrite member_text_shape.
    change (skip_space (String quote ?t)) with (String quote t).
    change (Ascii.eqb quote quote) with true. cbv iota.
    rewrite escaped_string_is_read_back.
    change (skip_space (String ":" ?t)) with (String ":" t).
    change (Ascii.eqb ":" ":") with true. cbv iota.
    rewrite (Hx Hpx g depth (String "}" rest));
      [reflexivity | apply (Hd (k, x)); now left | lia].
  - remember (p :: ps) as more eqn:Hmore.
    assert (Hm : map member_text more <> []) by (subst more; discriminate).
    rewrite BuildProofs.concat_cons in * by exact Hm.
    rewrite BuildProofs.string_app_assoc, member_text_shape.
    rewrite !length_app in Hf. cbn [String.length] in Hf.
    change (skip_space (String quote ?t)) with (String quote t).
    change (Ascii.eqb quote quote) with true. cbv iota.
    rewrite escaped_string_is_read_back.
    change (skip_space (String ":" ?t)) with (String ":" t).
    change (Ascii.eqb ":" ":") with true. cbv iota.
    rewrite BuildProofs.string_app_assoc. cbn [String.append].
    rewrite (Hx Hpx g depth); [| apply (Hd (k, x)); now left | lia].
    change (skip_space (String "," ?t)) with (String "," t).
    change (Ascii.eqb "," ",") with true. cbv iota.
    rewrite IH; [reflexivity | exact Hrest | exact Hpl | subst more; discriminate | | lia].
    intros z Hz. apply Hd. now right.
Qed.

(** *** Members in key order *)

Lemma insert_member_by_key (kv : string * string) (l : list (string * string)) :
  insert_member kv l = insert_by_key kv l.
Proof. induction l as [|h t IH]; cbn; [reflexivity | now rewrite IH]. Qed.

Lemma sort_members_by_key (l : list (string * string)) :
  sort_members l = sort_by_key l.
Proof.
  unfold sort_members, sort_by_key.
  induction l as [|kv l IH]; cbn; [reflexivity|].
  now rewrite IH, insert_member_by_key.
Qed.

Lemma insert_by_key_map {A B} (f : A -> B) (kv : string * A) (l : list (string * A)) :
  insert_by_key (on_value f kv) (map (on_value f) l)
  = map (on_value f) (insert_by_key kv l).
Proof.
  induction l as [|[k' x'] l IH]; [reflexivity|]. destruct kv as [k x].
  cbn [map on_value insert_by_key fst] in *.
  destruct (String.leb k k'); [reflexivity|]. cbn [map on_value]. now rewrite IH.
Qed.

Lemma sort_by_key_map {A B} (f : A -> B) (l : list (string * A)) :
  sort_by_key (map (on_value f) l) = map (on_value f) (sort_by_key l).
Proof.
  unfold sort_by_key. induction l as [|kv l IH]; [reflexivity|].
  cbn [map fold_right]. now rewrite IH, insert_by_key_map.
Qed.

Lemma insert_by_key_perm {A} (kv : string * A) (l : list (string * A)) :
  Permutation (insert_by_key kv l) (kv :: l).
Proof.
  induction l as [|h t IH]; cbn; [apply Permutation_refl|].
  destruct (String.leb (fst kv) (fst h)); [apply Permutation_refl|].
  eapply Permutation_trans; [apply perm_skip, IH | apply perm_swap].
Qed.

Lemma sort_by_key_perm {A} (l : list (string * A)) : Permutation (sort_by_key l) l.
Proof.
  unfold sort_by_key. induction l as [|kv l IH]; cbn; [apply Permutation_refl|].
  eapply Permutation_trans; [apply insert_by_key_perm | now apply perm_skip].
Qed.

Lemma existsb_eqb_In (k : string) (l : list string) :
  existsb (String.eqb k) l = true <-> In k l.
Proof.
  rewrite existsb_exists. split.
  - intros (x & Hin & Heq). apply String.eqb_eq in Heq. now subst.
  - intros Hin. exists k. split; [exact Hin | apply String.eqb_refl].
Qed.

Lemma no_repeat_NoDup (l : list string) : no_repeat l = true <-> NoDup l.
Proof.
  induction l as [|k l IH]; cbn [no_repeat].
  - split; [constructor | reflexivity].
  - rewrite andb_true_iff, negb_true_iff, IH. split.
    + intros [Hk Hl]. constructor; [|exact Hl].
      intros Hin. apply existsb_eqb_In in Hin. congruence.
    + intros H. inversion H as [|? ? Hk Hl]; subst. split; [|exact Hl].
      destruct (existsb (String.eqb k) l) eqn:E; [|reflexivity].
      apply existsb_eqb_In in E. contradiction.
Qed.

Lemma no_repeat_sorted {A} (l : list (string * A)) :
  no_repeat (keys l) = true -> no_repeat (keys (sort_by_key l)) = true.
Proof.
  rewrite !no_repeat_NoDup. intros H.
  eapply Permutation_NoDup; [|exact H].
  apply Permutation_sym. unfold keys. apply Permutation_map, sort_by_key_perm.
Qed.

Lemma sort_by_key_nil {A} (l : list (string * A)) : sort_by_key l = [] -> l = [].
Proof.
  intros H. pose proof (sort_by_key_perm l) as Hp. rewrite H in Hp.
  now apply Permutation_nil in Hp.
Qed.

Lemma depth_allows (depth h : N) :
  (depth + (1 + h) <= maxNestingDepth)%N -> (maxNestingDepth <? depth + 1)%N = false.
Proof. intros H. apply N.ltb_ge. lia. Qed.

Lemma array_text (items : list json) (rest : string) :
  (encode (JArray items) ++ rest)%string
  = String "[" (String.concat "," (map encode items) ++ String "]" rest)%string.
Proof.
  cbn [encode]. rewrite !BuildProofs.string_app_assoc. reflexivity.
Qed.

Lemma object_text (members : list (string * json)) (rest : string) :
  (encode (JObject members) ++ rest)%string
  = String "{" (String.concat "," (map member_text (sort_by_key members))
                ++ String "}" rest)%string.
Proof.
  cbn [encode]. rewrite !BuildProofs.string_app_assoc. cbn [String.append].
  change (map (fun kv : string * json => let '(k, x) := kv in (k, encode x)) members)
    with (map (on_value encode) members).
  rewrite sort_members_by_key, sort_by_key_map, map_map. reflexivity.
Qed.

Lemma array_length (items : list json) :
  String.length (encode (JArray items))
  = String.length (String.concat "," (map encode items)) + 2.
Proof. cbn [encode]. rewrite !length_app. cbn. lia. Qed.

Lemma object_length (members : list (string * json)) :
  String.length (encode (JObject members))
  = String.length (String.concat "," (map member_text (sort_by_key members))) + 2.
Proof.
  pose proof (object_text members EmptyString) as H.
  apply (f_equal String.length) in H. rewrite length_app in H.
  cbn [String.length] in H. rewrite length_app in H. cbn [String.length] in H. lia.
Qed.

(** Every value is read back. *)
Lemma every_value_reads_back (v : json) : reads_back v.
Proof.
  induction v as [| b | neg m e text | s | items IH | members IH] using json_induction;
    intros Hplain fuel depth rest Hdepth Hfuel.
  - destruct fuel as [|g]; [cbn in Hfuel; lia | reflexivity].
  - destruct fuel as [|g]; [destruct b; cbn in Hfuel; lia | destruct b; reflexivity].
  - discriminate.
  - destruct fuel as [|g]; [cbn in Hfuel; lia|].
    cbn [encode encode_string String.append]. rewrite BuildProofs.string_app_assoc.
    cbn [String.append parse_value].
    change (skip_space (String quote ?t)) with (String quote t).
    change (Ascii.eqb quote quote) with true. cbv iota.
    now rewrite escaped_string_is_read_back.
  - rewrite array_length in Hfuel. rewrite array_text.
    destruct fuel as [|g]; [lia|]. cbn [parse_value].
    change (skip_space (String "[" ?t)) with (String "[" t).
    change (Ascii.eqb "[" quote) with false. change (Ascii.eqb "[" "[") with true.
    cbv iota. cbn [height] in Hdepth. rewrite (depth_allows _ _ Hdepth).
    destruct items as [|x items]; [reflexivity|].
    remember (x :: items) as all eqn:Hall.
    cbn [plain] in Hplain.
    assert (Hx : plain x = true).
    { subst all. cbn [forallb] in Hplain. now apply andb_prop in Hplain as [? _]. }
    assert (Hhead : starts_with "]"
                      (skip_space (String.concat "," (map encode all)
                                   ++ String "]" rest)%string) = false).
    { subst all. cbn [map]. destruct items as [|y items].
      - cbn [String.concat map]. now apply encode_not_closing.
      - rewrite BuildProofs.concat_cons by discriminate.
        rewrite BuildProofs.string_app_assoc. now apply encode_not_closing. }
    rewrite Hhead.
    rewrite elements_read_back;
      [reflexivity | exact IH | exact Hplain | subst all; discriminate | | lia].
    intros z Hz. apply (in_map height) in Hz. apply fold_max_ge in Hz. lia.
  - rewrite object_length in Hfuel. rewrite object_text.
    destruct fuel as [|g]; [lia|]. cbn [parse_value].
    change (skip_space (String "{" ?t)) with (String "{" t).
    change (Ascii.eqb "{" quote) with false. change (Ascii.eqb "{" "[") with false.
    change (Ascii.eqb "{" "{") with true.
    cbv iota. cbn [height] in Hdepth. rewrite (depth_allows _ _ Hdepth).
    cbn [plain] in Hplain. apply andb_prop in Hplain as [Hkeys Hvalues].
    cbn [canonical].
    change (map (fun kv : string * json => let '(k, x) := kv in (k, canonical x)) members)
      with (map (on_value canonical) members).
    rewrite sort_by_key_map.
    destruct members as [|m0 members]; [reflexivity|].
    remember (m0 :: members) as all eqn:Hall.
    assert (Hne : sort_by_key all <> []).
    { intros H. apply sort_by_key_nil in H. subst all. discriminate. }
    assert (Hin : forall kv, In kv (sort_by_key all) -> In kv all).
    { intros kv. apply Permutation_in, sort_by_key_perm. }
    assert (Hhead : starts_with "}"
                      (skip_space (String.concat "," (map member_text (sort_by_key all))
                                   ++ String "}" rest)%string) = false).
    { destruct (sort_by_key all) as [|[k x] ps]; [contradiction|]. cbn [map].
      destruct ps as [|p' ps].
      - cbn [String.concat map]. rewrite member_text_shape. reflexivity.
      - rewrite BuildProofs.concat_cons by discriminate.
        rewrite BuildProofs.string_app_assoc, member_text_shape. reflexivity. }
    rewrite Hhead.
    rewrite members_read_back; [reflexivity | | | | | lia].
    + apply Forall_forall. intros kv Hkv. apply Hin in Hkv.
      rewrite Forall_forall in IH. now apply IH.
    + apply forallb_forall. intros [k x] Hkv. apply Hin in Hkv.
      rewrite forallb_forall in Hvalues. specialize (Hvalues _ Hkv). cbn in Hvalues.
      now apply andb_prop in Hvalues as [_ ?].
    + exact Hne.
    + intros [k x] Hkv. apply Hin in Hkv. cbn [snd].
      apply (in_map (fun kv => let '(_, x) := kv in height x)) in Hkv.
      apply fold_max_ge in Hkv. lia.
Qed.

Lemma app_empty (s : string) : (s ++ EmptyString)%string = s.
Proof. induction s as [|c s IH]; cbn; [reflexivity | now rewrite IH]. Qed.

Lemma plain_numbers_fit (v : json) : plain v = true -> numbers_fit (canonical v) = true.
Proof.
  induction v as [| b | neg m e text | s | items IH | members IH] using json_induction;
    intros Hplain; try reflexivity; try discriminate.
  - cbn [canonical numbers_fit plain] in *. apply forallb_forall.
    intros y Hy. apply in_map_iff in Hy as (x & <- & Hx).
    rewrite Forall_forall in IH. apply IH; [exact Hx|].
    rewrite forallb_forall in Hplain. now apply Hplain.
  - cbn [canonical numbers_fit plain] in *. apply andb_prop in Hplain as [_ Hvalues].
    apply forallb_forall. intros [k y] Hy.
    apply (Permutation_in _ (sort_by_key_perm _)) in Hy.
    apply in_map_iff in Hy as ([k' x] & [= <- <-] & Hx).
    rewrite Forall_forall in IH. apply (IH _ Hx).
    rewrite forallb_forall in Hvalues. specialize (Hvalues _ Hx). cbn in Hvalues.
    now apply andb_prop in Hvalues as [_ ?].
Qed.

(** *** What the map keeps *)

Lemma has_key_existsb (k : string) (l : list (string * json)) :
  has_key k l = existsb (String.eqb k) (keys l).
Proof.
  induction l as [|[k' x] l IH]; [reflexivity|]. cbn. now rewrite IH.
Qed.

Lemma keys_on_value {A B} (f : A -> B) (l : list (string * A)) :
  keys (map (on_value f) l) = keys l.
Proof.
  unfold keys. rewrite map_map. apply map_ext. now intros [k x].
Qed.

Lemma stored_object (l : list (string * json)) :
  stored (JObject l) = JObject l -> stored_members l = l.
Proof.
  change (stored (JObject l)) with (JObject (stored_members l)). congruence.
Qed.

(** Members without a repeated key, each stored as it is, are all kept. *)
Lemma stored_members_kept (l : list (string * json)) :
  no_repeat (keys l) = true ->
  Forall (fun kv => stored (snd kv) = snd kv) l ->
  stored_members l = l.
Proof.
  induction l as [|[k x] l IH]; [reflexivity|].
  cbn [keys map fst no_repeat]. intros Hk HF.
  apply andb_prop in Hk as [Hk Hks]. apply negb_true_iff in Hk.
  inversion HF as [|? ? Hx Hl]; subst. cbn [snd] in Hx.
  unfold stored_members in *. cbn [fold_right]. rewrite (IH Hks Hl), Hx.
  unfold add_member. fold (keys l) in Hk. now rewrite has_key_existsb, Hk.
Qed.

(** Storing changes nothing in a value read back from an encoder's
    text: no object of it has a key twice. *)
Lemma plain_is_stored (v : json) : plain v = true -> stored (canonical v) = canonical v.
Proof.
  induction v as [| b | neg m e text | s | items IH | members IH] using json_induction;
    intros Hplain; try reflexivity.
  - cbn [canonical stored plain] in *. f_equal. rewrite map_map.
    apply map_ext_in. intros x Hx. rewrite Forall_forall in IH. apply (IH x Hx).
    rewrite forallb_forall in Hplain. now apply Hplain.
  - cbn [plain] in Hplain. apply andb_prop in Hplain as [Hkeys Hvalues].
    cbn [canonical].
    change (map (fun kv : string * json => let '(k, x) := kv in (k, canonical x)) members)
      with (map (on_value canonical) members).
    change (stored (JObject ?l)) with (JObject (stored_members l)).
    f_equal. apply stored_members_kept.
    + apply no_repeat_sorted. now rewrite keys_on_value.
    + apply Forall_forall. intros kv Hkv.
      apply (Permutation_in _ (sort_by_key_perm _)) in Hkv.
      apply in_map_iff in Hkv as ([k x] & <- & Hx). cbn [on_value snd].
      rewrite Forall_forall in IH. apply (IH (k, x) Hx).
      rewrite forallb_forall in Hvalues. specialize (Hvalues _ Hx). cbn in Hvalues.
      now apply andb_prop in Hvalues as [_ ?].
Qed.

(** X16: a value without numbers, with ASCII texts and no key twice in
    an object, nested at most as deep as the reader allows, is read
    back from the text the encoder writes for it, with the members of
    every object in key order. *)
Theorem encoded_value_is_read_back :
  forall (v : json),
    plain v = true ->
    (height v <= maxNestingDepth)%N ->
    parse (encode v) = Some (canonical v)
    /\ parse (Encode v) = Some (canonical v).
Proof.
  intros v Hplain Hheight. split.
  - unfold parse, fuel_for. rewrite <- (app_empty (encode v)) at 2.
    rewrite (every_value_reads_back v Hplain); [reflexivity | exact Hheight | lia].
  - unfold parse, Encode, fuel_for.
    rewrite (every_value_reads_back v Hplain); [reflexivity | exact Hheight |].
    rewrite length_app. lia.
Qed.

Lemma encoded_value_is_read_back_witness :
  let v := JObject [("service", JString "app-b");
                    ("result", JArray [JNull; JBool true; JString "<ok>"])] in
  parse (encode v) = Some (canonical v) /\ parse (Encode v) = Some (canonical v).
Proof.
  exact (encoded_value_is_read_back
           (JObject [("service", JString "app-b");
                     ("result", JArray [JNull; JBool true; JString "<ok>"])])
           eq_refl (fun H => match H with eq_refl => I end)).
Defined.

(** X17: what a forwarding node writes on success, its caller decodes:
    for a result without numbers, in ASCII, without repeated keys and
    nested less deep than the reader allows, the written body decodes
    into the map of message, result and service, the result with its
    members in key order. *)
Theorem written_answer_is_decoded_by_the_caller :
  forall (n : NodeProps.forwarding_node) (result : gomap),
    plain (of_gomap result) = true ->
    (height (of_gomap result) < maxNestingDepth)%N ->
    Unmarshal (RequestProps.wrapped (NodeProps.forwarder n) result)
    = inr (Some [("message", JString (Node.message (NodeProps.forwarder n)));
                 ("result", canonical (of_gomap result));
                 ("service", JString (Node.serviceName (NodeProps.forwarder n)))]).
Proof.
  intros n result Hplain Hheight. unfold RequestProps.wrapped, Unmarshal.
  set (v := JObject [("service", JString (Node.serviceName (NodeProps.forwarder n)));
                     ("message", JString (Node.message (NodeProps.forwarder n)));
                     ("result", of_gomap result)]).
  assert (Hv : plain v = true).
  { subst v. destruct n; cbn -[plain]; cbn [plain forallb]; rewrite Hplain; reflexivity. }
  assert (Hh : (height v <= maxNestingDepth)%N).
  { subst v. cbn [height map fold_right]. lia. }
  unfold parse, Encode, fuel_for.
  rewrite (every_value_reads_back v Hv); [| exact Hh | rewrite length_app; lia].
  change (skip_space newline) with EmptyString. cbv iota.
  pose proof (proj2 (out_of_range_none _) (plain_numbers_fit v Hv)) as Hfit.
  pose proof (plain_is_stored v Hv) as Hkept.
  subst v. cbn [canonical map] in *.
  change (sort_by_key _) with
    [("message", JString (Node.message (NodeProps.forwarder n)));
     ("result", canonical (of_gomap result));
     ("service", JString (Node.serviceName (NodeProps.forwarder n)))] in *.
  apply stored_object in Hkept. now rewrite Hfit, Hkept.
Qed.

Lemma written_answer_is_decoded_by_the_caller_witness :
  let result := Some [("status", JString "success"); ("service", JString "app-c")] in
  Unmarshal (RequestProps.wrapped (NodeProps.forwarder NodeProps.NodeB) result)
  = inr (Some [("message", JString (Node.message (NodeProps.forwarder NodeProps.NodeB)));
               ("result", canonical (of_gomap result));
               ("service", JString (Node.serviceName (NodeProps.forwarder NodeProps.NodeB)))]).
Proof.
  exact (written_answer_is_decoded_by_the_caller NodeProps.NodeB
           (Some [("status", JString "success"); ("service", JString "app-c")])
           eq_refl eq_refl).
Defined.

End RoundTrip.
